(** * smile_datasets.simcse.unsup_dataset

    A shallow embedding of [DatasetForUnsupervisedSimCSE] and
    [DatapipeForUnsupervisedSimCSE] (src/smile_datasets/simcse/unsup_dataset.py)
    and the properties of the example pipeline: record round trip, length
    filter, dict shaping, the three padding strategies and the builders.

    A [tf.data.Dataset] is finite here and is modelled by the list of its
    elements in pipeline order; [map], [filter] and [prefetch] are the list
    operations (prefetching changes no element).  A rank-1 integer tensor is
    a [list Z], a rank-2 tensor a list of rows; a Python dict with string
    keys is a [gmap string _]. *)

From Stdlib Require Import ZArith List Lia Bool.
From stdpp Require Import base option list gmap strings.

Local Open Scope Z_scope.

(** ** Data model *)

(** A rank-1 integer tensor (or a Python list of ints). *)
Abbreviation tensor := (list Z).

(** A rank-2 integer tensor: one row per example of a batch. *)
Abbreviation tensor2 := (list (list Z)).

(** Modelled from the spec: [.example.ExampleForUnsupervisedSimCSE] is not
    in the source tree.  An example is "three equal-length integer sequences";
    the code here reads exactly these three attributes. *)
Record ExampleForUnsupervisedSimCSE := mkExample {
  input_ids : tensor;
  segment_ids : tensor;
  attention_mask : tensor
}.

(** An element of the dataset before batching: the tuple [(a, b, c)]. *)
Definition element : Type := tensor * tensor * tensor.

(** An element after batching: three rank-2 tensors. *)
Definition batch : Type := tensor2 * tensor2 * tensor2.

(** The element an example becomes in the dataset. *)
Definition element_of (e : ExampleForUnsupervisedSimCSE) : element :=
  (input_ids e, segment_ids e, attention_mask e).

(** A valid example has three sequences of one length. *)
Definition valid_element (x : element) : Prop :=
  length x.1.1 = length x.1.2 /\ length x.1.1 = length x.2.

(** [tf.size] of a rank-1 tensor. *)
Definition size (t : tensor) : Z := Z.of_nat (length t).

(** The three field names of the feature schema and of the shaped dict. *)
Definition k_input_ids : string := "input_ids"%string.
Definition k_segment_ids : string := "segment_ids"%string.
Definition k_attention_mask : string := "attention_mask"%string.

(** ** Integer widths *)

Definition int64_min : Z := - 2 ^ 63.
Definition int64_max : Z := 2 ^ 63 - 1.
Definition int32_min : Z := - 2 ^ 31.
Definition int32_max : Z := 2 ^ 31 - 1.

Definition fits_int64 (z : Z) : bool := (int64_min <=? z) && (z <=? int64_max).
Definition fits_int32 (z : Z) : bool := (int32_min <=? z) && (z <=? int32_max).

(** [tf.cast(_, tf.int32)] of an int64 value keeps the low 32 bits, read
    in two's complement. *)
Definition cast_int32 (z : Z) : Z := (z + 2 ^ 31) mod 2 ^ 32 - 2 ^ 31.

(** [tf.constant(z, dtype=tf.int32)] of a Python integer: the value as a
    32-bit integer. *)
Definition tf_constant_int32 (z : Z) : Z := cast_int32 z.

(** The element of an example with its values as 32-bit integers. *)
Definition element_int32 (e : ExampleForUnsupervisedSimCSE) : element :=
  (List.map cast_int32 (input_ids e), List.map cast_int32 (segment_ids e),
   List.map cast_int32 (attention_mask e)).

(** All three sequences of an example hold 32-bit values. *)
Definition example_fits_int32 (e : ExampleForUnsupervisedSimCSE) : Prop :=
  Forall (fun z => fits_int32 z = true) (input_ids e) /\
  Forall (fun z => fits_int32 z = true) (segment_ids e) /\
  Forall (fun z => fits_int32 z = true) (attention_mask e).

(** ** Effects: logging, parser calls, exceptions *)

(** What a builder does besides returning: the records it hands to
    [logging] and the instances it hands to the parser, in order. *)
Inductive event (I : Type) : Type :=
  | LogWarning (msg : string)
  | LogInfo (i : nat) (e : ExampleForUnsupervisedSimCSE)
  | ParserParse (instance : I).
Arguments LogWarning {I} msg.
Arguments LogInfo {I} i e.
Arguments ParserParse {I} instance.

(** A call either returns a value or raises. *)
Inductive outcome (A : Type) : Type :=
  | Returns (a : A)
  | Raises (err : string).
Arguments Returns {A} a.
Arguments Raises {A} err.

(** A computation: the events it produced and how it ended. *)
Definition eff (I A : Type) : Type := list (event I) * outcome A.

Definition ret {I A} (a : A) : eff I A := ([], Returns a).

Definition bind {I A B} (m : eff I A) (k : A -> eff I B) : eff I B :=
  match m with
  | (t, Returns a) => let '(t', r) := k a in (t ++ t', r)
  | (t, Raises err) => (t, Raises err)
  end.

Definition emit {I} (ev : event I) : eff I unit := ([ev], Returns tt).

Definition raise {I A} (err : string) : eff I A := ([], Raises err).

#[global] Instance eff_ret {I} : MRet (eff I) := fun A a => ret a.
#[global] Instance eff_bind {I} : MBind (eff I) := fun A B k m => bind m k.

(** [for x in xs: body(x)]. *)
Fixpoint for_each {I A} (xs : list A) (body : A -> eff I unit) : eff I unit :=
  match xs with
  | [] => ret tt
  | x :: xs' => _ ← body x; for_each xs' body
  end.

(** ** Raw instances *)

(** Modelled from the spec: the readers are not in the source tree.  A raw
    instance is "an opaque record (e.g., parsed JSON) holding at least one
    text field", a bare text in the scenarios, or null. *)
Inductive instance : Type :=
  | INull
  | IText (s : string)
  | IRecord (fields : gmap string string).

(** Python truthiness: [None], the empty text and the empty dict are falsy. *)
Definition instance_truthy (i : instance) : bool :=
  match i with
  | INull => false
  | IText s => negb (String.eqb s EmptyString)
  | IRecord fields => negb (bool_decide (fields = ∅))
  end.

(** ** Helpers of [smile_datasets.utils] *)

Module utils.

(** Modelled from the spec: [utils.int64_feature] is not in the source
    tree.  The record codec "maps each of the three sequences to a
    variable-length integer-list field" of int64 values: the field holds the
    values as given, and there is no such field for a value outside 64 bits. *)
Definition int64_feature (values : list Z) : option (list Z) :=
  if forallb fits_int64 values then Some values else None.

(** Modelled from the spec: part of the two padding helpers below.  The
    length the rows of one field of a batch are brought to: the given
    dimension, or for an unknown dimension ([None]) the longest sequence of
    the reference group. *)
Definition padded_dim (shape : option Z) (reference : list tensor) : nat :=
  match shape with
  | Some m => Z.to_nat m
  | None => max_list_with length reference
  end.

(** Modelled from the spec: part of the two padding helpers below.  One
    field of one batch: every sequence of the group "padded/truncated" to the
    padded dimension, the padding being [value] on the right. *)
Definition pad_field (shape : option Z) (value : Z)
    (reference group : list tensor) : tensor2 :=
  List.map (resize (padded_dim shape reference) value) group.

(** Modelled from the spec: part of the two padding helpers below.  One
    batch: the three fields of the group, each with its own shape and
    padding value. *)
Definition pad_group (padded_shapes : option Z * option Z * option Z)
    (padding_values : Z * Z * Z) (reference group : list element) : batch :=
  let '(sa, sb, sc) := padded_shapes in
  let '(va, vb, vc) := padding_values in
  (pad_field sa va (List.map (fun x => x.1.1) reference) (List.map (fun x => x.1.1) group),
   pad_field sb vb (List.map (fun x => x.1.2) reference) (List.map (fun x => x.1.2) group),
   pad_field sc vc (List.map (fun x => x.2) reference) (List.map (fun x => x.2) group)).

(** Modelled from the spec: part of the two padding helpers below.
    Consecutive groups of [n] elements "in pipeline order (no sorting)"; the
    elements left at the end form a last, shorter group.  [cur] is the group
    being filled. *)
Fixpoint windows_from {A} (n : nat) (cur : list A) (l : list A) : list (list A) :=
  match l with
  | [] => match cur with [] => [] | _ => [cur] end
  | x :: l' =>
      let cur' := cur ++ [x] in
      if (n <=? length cur')%nat then cur' :: windows_from n [] l'
      else windows_from n cur' l'
  end.

(** Modelled from the spec: the groups of a whole dataset. *)
Definition windows {A} (n : nat) (l : list A) : list (list A) :=
  windows_from n [] l.

(** Modelled from the spec: [utils.batching_and_padding] is not in the
    source tree.  "Sequences are grouped into batches of a configured size in
    pipeline order (no sorting)"; with a given dimension "every sequence is
    padded/truncated to" it, with an unknown one each batch is "padded to the
    length of its own longest member". *)
Definition batching_and_padding (dataset : list element)
    (padded_shapes : option Z * option Z * option Z)
    (padding_values : Z * Z * Z) (batch_size : nat) : list batch :=
  List.map (fun group => pad_group padded_shapes padding_values group group)
           (windows batch_size dataset).

(** Modelled from the spec: part of [utils.bucketing_and_padding].  The
    "length bucket" of a key: the number of boundaries passed before the
    first one that exceeds the key. *)
Fixpoint bucket_id (bucket_boundaries : list Z) (key : Z) : nat :=
  match bucket_boundaries with
  | [] => O
  | b :: bs => if key <? b then O else S (bucket_id bs key)
  end.

(** Modelled from the spec: part of [utils.bucketing_and_padding].  The
    members of bucket [k], in pipeline order. *)
Definition bucket_members (bucket_fn : element -> Z) (bucket_boundaries : list Z)
    (dataset : list element) (k : nat) : list element :=
  List.filter (fun x => Nat.eqb (bucket_id bucket_boundaries (bucket_fn x)) k) dataset.

(** Modelled from the spec: part of [utils.bucketing_and_padding].  The
    batches of bucket [k]: the bucket "is batched and padded to that bucket's
    own longest member". *)
Definition bucket_batches (bucket_fn : element -> Z)
    (padded_shapes : option Z * option Z * option Z) (padding_values : Z * Z * Z)
    (bucket_boundaries : list Z) (batch_size : nat)
    (dataset : list element) (k : nat) : list batch :=
  let members := bucket_members bucket_fn bucket_boundaries dataset k in
  List.map (pad_group padded_shapes padding_values members)
           (windows batch_size members).

(** Modelled from the spec: [utils.bucketing_and_padding] is not in the
    source tree.  "Examples are assigned to length buckets using the
    [bucket_fn] key; each bucket is batched and padded to that bucket's own
    longest member."  The batches are listed bucket by bucket. *)
Definition bucketing_and_padding (dataset : list element)
    (bucket_fn : element -> Z)
    (padded_shapes : option Z * option Z * option Z)
    (padding_values : Z * Z * Z)
    (bucket_boundaries : list Z) (batch_size : nat) : list batch :=
  List.flat_map
    (bucket_batches bucket_fn padded_shapes padding_values
                    bucket_boundaries batch_size dataset)
    (seq 0 (S (length bucket_boundaries))).

End utils.

(** ** [DatasetForUnsupervisedSimCSE] *)

Module DatasetForUnsupervisedSimCSE.

(** [_encoding(example)] of [save_tfrecord]: the feature dict of one
    example.  [int(x)] is the identity on an integer. *)
Definition _encoding (example : ExampleForUnsupervisedSimCSE)
    : option (gmap string (list Z)) :=
  f_input_ids ← utils.int64_feature (List.map (fun x => x) (input_ids example));
  f_segment_ids ← utils.int64_feature (List.map (fun x => x) (segment_ids example));
  f_attention_mask ← utils.int64_feature (List.map (fun x => x) (attention_mask example));
  Some (<[k_input_ids := f_input_ids]>
         (<[k_segment_ids := f_segment_ids]>
           (<[k_attention_mask := f_attention_mask]> ∅))).

End DatasetForUnsupervisedSimCSE.

(** ** [DatapipeForUnsupervisedSimCSE] *)

Module DatapipeForUnsupervisedSimCSE.

(** What [tf.io.parse_example] returns for a [VarLenFeature]: the values
    of the field in order (a field absent from the record has none). *)
Definition sparse : Type := list Z.

(** [tf.io.parse_example(x, features)] with the three [VarLenFeature(tf.int64)]
    of [from_tfrecord_files]. *)
Definition parse_example (x : gmap string (list Z)) : gmap string sparse :=
  <[k_input_ids := default [] (x !! k_input_ids)]>
    (<[k_segment_ids := default [] (x !! k_segment_ids)]>
      (<[k_attention_mask := default [] (x !! k_attention_mask)]> ∅)).

(** [tf.sparse.to_dense] of a rank-1 sparse tensor whose values are all set. *)
Definition to_dense (s : sparse) : tensor := s.

(** [tf.cast(_, tf.int32)]. *)
Definition cast (t : tensor) : tensor := List.map cast_int32 t.

(** [x["name"]] on the parsed dict. *)
Definition getitem (x : gmap string sparse) (name : string) : sparse :=
  default [] (x !! name).

(** The two [map] stages of [from_tfrecord_files] on one record. *)
Definition decode (x : gmap string (list Z)) : element :=
  let x := parse_example x in
  (cast (to_dense (getitem x k_input_ids)),
   cast (to_dense (getitem x k_segment_ids)),
   cast (to_dense (getitem x k_attention_mask))).

(** [from_tfrecord_files]: the records read, parsed, made dense and cast,
    then handed to the pipeline [call] (the instance [cls(kwargs)] applied
    to the dataset; [Datapipe.__call__] is declared outside this file). *)
Definition from_tfrecord_files {D : Type} (call : list element -> D)
    (records : list (gmap string (list Z))) : D :=
  call (List.map decode records).

(** The predicate of [_filter]: [lambda a, b, c: tf.size(a) <= max_sequence_length].
    [tf.size] is an int32 tensor and the comparison converts the bound to
    int32 as well. *)
Definition filter_fn (max_sequence_length : Z) (x : element) : bool :=
  let '(a, b, c) := x in size a <=? cast_int32 max_sequence_length.

(** [_filter(self, dataset, do_filter=True, max_sequence_length=512)]. *)
Definition _filter (dataset : list element) (do_filter : bool)
    (max_sequence_length : Z) : list element :=
  if negb do_filter then dataset
  else List.filter (filter_fn max_sequence_length) dataset.

(** What the shape stage yields as first component: the tuple [(a, b, c)]
    or the dict of the three named fields. *)
Inductive features (T : Type) : Type :=
  | FTuple (a b c : T)
  | FDict (d : gmap string T).
Arguments FTuple {T} a b c.
Arguments FDict {T} d.

(** A shaped element; its second component is Python's [None]. *)
Definition shaped (T : Type) : Type := features T * option T.

(** [_to_dict(self, dataset, to_dict=True)].  The stage is the same for
    unbatched and for batched elements, so the tensor type is a parameter. *)
Definition _to_dict {T : Type} (dataset : list (T * T * T)) (to_dict : bool)
    : list (shaped T) :=
  if negb to_dict then
    List.map (fun '(a, b, c) => (FTuple a b c, None)) dataset
  else
    List.map (fun '(x, y, z) =>
                (FDict (<[k_input_ids := x]>
                         (<[k_segment_ids := y]>
                           (<[k_attention_mask := z]> ∅))), None)) dataset.

(** [_fixed_padding(self, dataset, pad_id=0, max_sequence_length=512)];
    [batch_size] is read from [kwargs] by the helper. *)
Definition _fixed_padding (dataset : list element) (pad_id : Z)
    (max_sequence_length : Z) (batch_size : nat) : list batch :=
  let pad_id := tf_constant_int32 pad_id in
  let maxlen := tf_constant_int32 max_sequence_length in
  let padded_shapes := (Some maxlen, Some maxlen, Some maxlen) in
  let padding_values := (pad_id, pad_id, pad_id) in
  utils.batching_and_padding dataset padded_shapes padding_values batch_size.

(** [_batch_padding(self, dataset, pad_id=0)]. *)
Definition _batch_padding (dataset : list element) (pad_id : Z)
    (batch_size : nat) : list batch :=
  let pad_id := tf_constant_int32 pad_id in
  let padded_shapes := (@None Z, @None Z, @None Z) in
  let padding_values := (pad_id, pad_id, pad_id) in
  utils.batching_and_padding dataset padded_shapes padding_values batch_size.

(** The key of [_bucket_padding]: [lambda a, b, c: tf.size(a)]. *)
Definition bucket_fn (x : element) : Z :=
  let '(a, b, c) := x in size a.

(** [_bucket_padding(self, dataset, pad_id=0)]; the boundaries and the
    batch size are read from [kwargs] by the helper. *)
Definition _bucket_padding (dataset : list element) (pad_id : Z)
    (bucket_boundaries : list Z) (batch_size : nat) : list batch :=
  let pad_id := tf_constant_int32 pad_id in
  let padded_shapes := (@None Z, @None Z, @None Z) in
  let padding_values := (pad_id, pad_id, pad_id) in
  utils.bucketing_and_padding dataset bucket_fn padded_shapes padding_values
                              bucket_boundaries batch_size.

(** [tf.data.Dataset.zip] of three datasets. *)
Definition Dataset_zip {A B C : Type} (da : list A) (db : list B) (dc : list C)
    : list (A * B * C) :=
  zip (zip da db) dc.

(** [_to_dataset(x, dtype=tf.int32)] of [from_examples]:
    [tf.ragged.constant(x, dtype=tf.int32)] holds the values as 32-bit
    integers, [from_tensor_slices] gives one element per sequence, and the
    identity [map] changes nothing. *)
Definition _to_dataset (x : list tensor) : list tensor :=
  let x := List.map cast x in
  List.map (fun x => x) x.

(** Python's [not examples] on a list or [None]. *)
Definition examples_falsy (examples : option (list ExampleForUnsupervisedSimCSE)) : bool :=
  match examples with
  | None => true
  | Some [] => true
  | Some (_ :: _) => false
  end.

Section Builders.

(** The transformation pipeline [d = cls(kwargs)] applied to a dataset:
    [Datapipe.__call__] is declared outside this file. *)
Context {D : Type} (call : list element -> D).

(** [parser.parse(instance)]: the parser class is declared
    outside this file; it returns an example or [None].  [parse] is the
    parser of one call: it is built from, and called with, the keyword
    arguments of that call, [verbose] among them. *)
Context (parse : instance -> option ExampleForUnsupervisedSimCSE).

(** [from_examples(cls, examples, verbose=True)].  The result [None] is the
    "no dataset" value. *)
Definition from_examples (examples : option (list ExampleForUnsupervisedSimCSE))
    (verbose : bool) : eff instance (option D) :=
  if examples_falsy examples then
    _ ← emit (LogWarning "examples is empty or null, skipped to build dataset.");
    ret None
  else
    let examples := default [] examples in
    _ ← (if verbose then
       let n := Nat.min 5 (length examples) in
       for_each (seq 0 n) (fun i =>
         match examples !! i with
         | Some e => emit (LogInfo i e)
         | None => raise "IndexError"
         end)
     else ret tt);
    let dataset :=
      Dataset_zip (_to_dataset (List.map input_ids examples))
                  (_to_dataset (List.map segment_ids examples))
                  (_to_dataset (List.map attention_mask examples)) in
    ret (Some (call dataset)).

(** The loop of [from_instances]: [examples] is the list built so far.
    An example object is truthy, so [not e] holds of [None] only. *)
Fixpoint collect (instances : list instance)
    (examples : list ExampleForUnsupervisedSimCSE)
    : eff instance (list ExampleForUnsupervisedSimCSE) :=
  match instances with
  | [] => ret examples
  | i :: rest =>
      if negb (instance_truthy i) then collect rest examples
      else
        _ ← emit (ParserParse i);
        match parse i with
        | None => collect rest examples
        | Some e => collect rest (examples ++ [e])
        end
  end.

(** [from_instances(cls, instances, tokenizer=None, vocab_file=None)]. *)
Definition from_instances (instances : list instance) (verbose : bool)
    : eff instance (option D) :=
  examples ← collect instances [];
  from_examples (Some examples) verbose.

(** [readers.read_jsonl_files_for_unsup_simcse(input_files)]: the readers
    are declared outside this file; they yield the raw instances. *)
Context (read_jsonl_files_for_unsup_simcse : list string -> list instance).


(** [from_dataset(cls, dataset)]: iterating the dataset yields its items, an
    example or [None] each; [[e for _, e in enumerate(dataset) if e]] keeps
    the examples, in order. *)
Definition from_dataset (dataset : list (option ExampleForUnsupervisedSimCSE))
    (verbose : bool) : eff instance (option D) :=
  let examples := omap (fun e => e) dataset in
  from_examples (Some examples) verbose.

End Builders.

End DatapipeForUnsupervisedSimCSE.

(** ** Vocabulary of the padding properties *)

(** [row] is [s] with every position from [length s] on holding [v]: the
    positions [row] shares with [s] are unchanged, the others are padding. *)
Definition filled_from (v : Z) (s row : tensor) : Prop :=
  (forall j, (j < length row)%nat -> (j < length s)%nat -> row !! j = s !! j) /\
  (forall j, (length s <= j)%nat -> (j < length row)%nat -> row !! j = Some v).

(** [row] is [s] padded with [v], or cut, to length exactly [L]. *)
Definition padded_row (v : Z) (L : nat) (s row : tensor) : Prop :=
  length row = L /\ filled_from v s row.

(** The rows of the three fields of [B] are, in order, the sequences of the
    examples of [g], each padded with [v] or cut. *)
Definition batch_fills (v : Z) (g : list element) (B : batch) : Prop :=
  Forall2 (fun x row => filled_from v (x.1.1) row) g (B.1.1) /\
  Forall2 (fun x row => filled_from v (x.1.2) row) g (B.1.2) /\
  Forall2 (fun x row => filled_from v (x.2) row) g (B.2).

(** The rows of the three fields of [B] are the sequences of the examples of
    [g], in order, each brought to the length of its field. *)
Definition batch_of_group (v : Z) (La Lb Lc : nat) (g : list element) (B : batch) : Prop :=
  Forall2 (fun x row => padded_row v La (x.1.1) row) g (B.1.1) /\
  Forall2 (fun x row => padded_row v Lb (x.1.2) row) g (B.1.2) /\
  Forall2 (fun x row => padded_row v Lc (x.2) row) g (B.2).

(** A rank-2 tensor of shape [(rows, cols)]. *)
Definition has_shape (t : tensor2) (rows : nat) (cols : Z) : Prop :=
  length t = rows /\ Forall (fun row => size row = cols) t.

(** In every row of the attention mask of [B], the positions past the true
    length of the example hold [v]. *)
Definition mask_padding_is (v : Z) (g : list element) (B : batch) : Prop :=
  Forall2 (fun x row =>
             forall j, (length (x.2) <= j)%nat -> (j < length row)%nat ->
                       row !! j = Some v) g (B.2).

(** The longest [input_ids] sequence among the elements of [g]. *)
Definition longest_input_ids (g : list element) : nat :=
  max_list_with (fun x : element => length (x.1.1)) g.

(** The warning of [from_examples]. *)
Definition empty_warning : string :=
  "examples is empty or null, skipped to build dataset."%string.



(** Every value of a tensor is a 32-bit integer. *)
Definition tensor_fits_int32 (t : tensor) : Prop :=
  Forall (fun z => fits_int32 z = true) t.

(** [row] is [s] followed by padding only: nothing of [s] is cut. *)
Definition only_padded (v : Z) (s row : tensor) : Prop :=
  row = s ++ replicate (length row - length s) v.

(** ** Integer widths *)

Lemma fits_int32_fits_int64 z : fits_int32 z = true -> fits_int64 z = true.
Proof.
  unfold fits_int32, fits_int64, int32_min, int32_max, int64_min, int64_max.
  rewrite !andb_true_iff, !Z.leb_le. lia.
Qed.

Lemma cast_int32_fits z : fits_int32 z = true -> cast_int32 z = z.
Proof.
  unfold fits_int32, int32_min, int32_max, cast_int32.
  rewrite andb_true_iff, !Z.leb_le. intros [Hlo Hhi].
  rewrite Z.mod_small by lia. lia.
Qed.

Lemma fits_int32_bounds z : fits_int32 z = true <-> - 2 ^ 31 <= z <= 2 ^ 31 - 1.
Proof.
  unfold fits_int32, int32_min, int32_max. by rewrite andb_true_iff, !Z.leb_le.
Qed.

Lemma tf_constant_int32_fits z : fits_int32 z = true -> tf_constant_int32 z = z.
Proof. apply cast_int32_fits. Qed.

(** ** The filter stage *)

Section FilterStage.
Import DatapipeForUnsupervisedSimCSE.

Lemma filter_fn_spec M a b c :
  fits_int32 M = true -> filter_fn M (a, b, c) = true <-> size a <= M.
Proof. intros HM. unfold filter_fn. rewrite (cast_int32_fits M HM). apply Z.leb_le. Qed.

Lemma _filter_on ds M : _filter ds true M = List.filter (filter_fn M) ds.
Proof. reflexivity. Qed.

Lemma _filter_off ds M : _filter ds false M = ds.
Proof. reflexivity. Qed.

Lemma _filter_app l1 l2 M :
  _filter (l1 ++ l2) true M = _filter l1 true M ++ _filter l2 true M.
Proof. rewrite !_filter_on. apply List.filter_app. Qed.

Lemma _filter_In ds M x :
  fits_int32 M = true ->
  In x (_filter ds true M) <-> In x ds /\ size (x.1.1) <= M.
Proof.
  intros HM. rewrite _filter_on, List.filter_In. destruct x as [[a b] c].
  by rewrite filter_fn_spec.
Qed.

(** C3.  With [do_filter=True] and a bound [M] that is a 32-bit integer, an
    element survives the filter exactly when the length of its [input_ids]
    is at most [M]: wherever it stands in the dataset it is kept in place
    when [size a <= M] and removed otherwise, so the survivors are those
    with [size a <= M], an element of length exactly [M] is kept, and a
    dropped one had [size a > M]. *)
Theorem filter_survives_iff_within_bound (M : Z) (l1 l2 : list element)
    (a b c : tensor) :
  fits_int32 M = true ->
  _filter (l1 ++ (a, b, c) :: l2) true M =
    _filter l1 true M ++ (if size a <=? M then [(a, b, c)] else [])
                      ++ _filter l2 true M
  /\ (forall ds x, In x (_filter ds true M) <-> In x ds /\ size (x.1.1) <= M)
  /\ (forall ds x, In x ds /\ ~ In x (_filter ds true M) <-> In x ds /\ size (x.1.1) > M)
  /\ (size a = M -> filter_fn M (a, b, c) = true).
Proof.
  intros HM. split; [|split; [|split]].
  - rewrite _filter_app. f_equal. rewrite _filter_on. cbn [List.filter].
    unfold filter_fn at 1. rewrite (cast_int32_fits M HM).
    destruct (size a <=? M); reflexivity.
  - intros ds x. by apply _filter_In.
  - intros ds x. rewrite _filter_In by done. split.
    + intros [Hin Hno]. split; [done|]. destruct (Z_le_gt_dec (size x.1.1) M); [|done].
      exfalso. apply Hno. done.
    + intros [Hin Hgt]. split; [done|]. intros [_ Hle]. lia.
  - intros Ha. apply filter_fn_spec; [done|lia].
Qed.

(** The witness of C3: bound 3, an element of length exactly 3 between one
    that is dropped and one that is kept. *)
Lemma filter_survives_iff_within_bound_witness :
  let x : element := ([1; 2; 3], [0; 0; 0], [1; 1; 1]) in
  let long : element := ([1; 2; 3; 4], [0; 0; 0; 0], [1; 1; 1; 1]) in
  let short : element := ([9], [0], [1]) in
  _filter ([long] ++ x :: [short]) true 3 = [] ++ [x] ++ [short]
  /\ (forall ds y, In y (_filter ds true 3) <-> In y ds /\ size (y.1.1) <= 3)
  /\ (forall ds y, In y ds /\ ~ In y (_filter ds true 3) <-> In y ds /\ size (y.1.1) > 3)
  /\ (size (x.1.1) = 3 -> filter_fn 3 x = true).
Proof.
  apply (filter_survives_iff_within_bound 3
           [([1; 2; 3; 4], [0; 0; 0; 0], [1; 1; 1; 1])] [([9], [0], [1])]
           [1; 2; 3] [0; 0; 0] [1; 1; 1]).
  reflexivity.
Defined.

(** C10.  For a bound [M] that is a 32-bit integer, the filter reads the
    first field only: an element whose [input_ids] has at most [M] entries is
    kept in place whatever the lengths of its [segment_ids] and
    [attention_mask], and the predicate gives the same answer for any other
    second and third field. *)
Theorem filter_reads_input_ids_only (M : Z) (a b c : tensor) (l1 l2 : list element) :
  fits_int32 M = true ->
  size a <= M ->
  _filter (l1 ++ (a, b, c) :: l2) true M =
    _filter l1 true M ++ (a, b, c) :: _filter l2 true M
  /\ forall b' c', filter_fn M (a, b', c') = filter_fn M (a, b, c).
Proof.
  intros HM Ha. split; [|reflexivity].
  rewrite _filter_app. f_equal. rewrite !_filter_on. cbn [List.filter].
  by rewrite (proj2 (filter_fn_spec M a b c HM) Ha).
Qed.

(** The witness of C10: the second and third fields are longer than the bound. *)
Lemma filter_reads_input_ids_only_witness :
  let x : element := ([7; 8], [0; 0; 0; 0; 0], [1; 1; 1; 1]) in
  (size (x.1.2) > 2 /\ size (x.2) > 2) /\
  _filter ([([1; 2; 3], [0; 0; 0], [1; 1; 1])] ++ x :: []) true 2 = [] ++ x :: [].
Proof.
  split; [split; reflexivity|].
  apply (filter_reads_input_ids_only 2 [7; 8] [0; 0; 0; 0; 0] [1; 1; 1; 1]
           [([1; 2; 3], [0; 0; 0], [1; 1; 1])] []).
  - reflexivity.
  - vm_compute. discriminate.
Defined.

End FilterStage.

(** ** The shape stage *)

Section ShapeStage.
Import DatapipeForUnsupervisedSimCSE.
Context {T : Type}.

Lemma _to_dict_length (ds : list (T * T * T)) flag :
  length (_to_dict ds flag) = length ds.
Proof. unfold _to_dict. destruct flag; simpl; apply length_map. Qed.

Lemma field_names_distinct :
  k_input_ids <> k_segment_ids /\ k_input_ids <> k_attention_mask /\
  k_segment_ids <> k_attention_mask.
Proof. repeat split; discriminate. Qed.

(** C8.  For the element [(a, b, c)] at any position of the dataset, the
    shape stage yields at that position the pair of the dict holding [a],
    [b] and [c] under the three field names (and nothing else) with [None]
    when [to_dict] is set, and the pair of the tuple [(a, b, c)] with [None]
    otherwise; the values are unchanged. *)
Theorem to_dict_pairs_fields_with_none (ds : list (T * T * T)) (i : nat) (a b c : T) :
  ds !! i = Some (a, b, c) ->
  (exists d : gmap string T,
      _to_dict ds true !! i = Some (FDict d, None) /\
      d !! k_input_ids = Some a /\ d !! k_segment_ids = Some b /\
      d !! k_attention_mask = Some c /\
      (forall k, is_Some (d !! k) ->
                 k = k_input_ids \/ k = k_segment_ids \/ k = k_attention_mask)) /\
  _to_dict ds false !! i = Some (FTuple a b c, None).
Proof.
  intros Hi. destruct field_names_distinct as (H12 & H13 & H23). split.
  - eexists. split; [|split; [|split; [|split]]].
    + unfold _to_dict. simpl. rewrite list_lookup_fmap, Hi. reflexivity.
    + apply lookup_insert_eq.
    + rewrite lookup_insert_ne by done. apply lookup_insert_eq.
    + rewrite !lookup_insert_ne by done. apply lookup_insert_eq.
    + intros k [v Hk].
      destruct (decide (k = k_input_ids)) as [|N1]; [by left|].
      destruct (decide (k = k_segment_ids)) as [|N2]; [by right; left|].
      destruct (decide (k = k_attention_mask)) as [|N3]; [by right; right|].
      rewrite !lookup_insert_ne in Hk by done. by rewrite lookup_empty in Hk.
  - unfold _to_dict. simpl. rewrite list_lookup_fmap, Hi. reflexivity.
Qed.

End ShapeStage.

(** The witness of C8: a dataset of two elements, shaped at position 1. *)
Lemma to_dict_pairs_fields_with_none_witness :
  DatapipeForUnsupervisedSimCSE._to_dict [([1; 2], [0; 0], [1; 1]); ([3], [0], [1])] false !! 1%nat
    = Some (DatapipeForUnsupervisedSimCSE.FTuple [3] [0] [1], None).
Proof.
  apply (to_dict_pairs_fields_with_none
           [([1; 2], [0; 0], [1; 1]); ([3], [0], [1])] 1 [3] [0] [1]).
  reflexivity.
Defined.

(** ** The builders *)

Section Builders.
Import DatapipeForUnsupervisedSimCSE.
Context {D : Type} (call : list element -> D).
Context (parse : instance -> option ExampleForUnsupervisedSimCSE).

(** C4.  Called with [None] or with the empty list, [from_examples] logs
    the warning and nothing else, and returns [None]: it does not raise, and
    it does not return a dataset (the pipeline is never applied). *)
Theorem from_examples_empty_is_none (verbose : bool) :
  from_examples call None verbose = ([LogWarning empty_warning], Returns None) /\
  from_examples call (Some []) verbose = ([LogWarning empty_warning], Returns None).
Proof. split; reflexivity. Qed.

Lemma bind_emit {A} (ev : event instance) (m : eff instance A) :
  (_ ← emit ev; m) = (ev :: m.1, m.2).
Proof. destruct m as [t r]. unfold mbind, eff_bind, bind, emit. destruct r; reflexivity. Qed.

Lemma collect_spec (instances : list instance) (acc : list ExampleForUnsupervisedSimCSE) :
  collect parse instances acc =
    (List.map ParserParse (List.filter instance_truthy instances),
     Returns (acc ++ omap parse (List.filter instance_truthy instances))).
Proof.
  revert acc. induction instances as [|i rest IH]; intros acc.
  - simpl. by rewrite app_nil_r.
  - cbn [collect List.filter]. destruct (instance_truthy i); cbn [negb]; [|apply IH].
    rewrite bind_emit. cbn [omap list_omap List.map].
    destruct (parse i) as [e|]; rewrite IH; cbn [fst snd]; [|done].
    by rewrite <- app_assoc.
Qed.

(** C9.  [from_instances] hands to the parser exactly the non-empty
    instances, in order, and to [from_examples] exactly the examples the
    parser returned for them, in the same order; an instance the parser
    answers with [None] leaves no trace, and the call ends as
    [from_examples] ends. *)
Theorem from_instances_keeps_parsed_in_order (instances : list instance) (verbose : bool) :
  let kept := List.filter instance_truthy instances in
  let built := from_examples call (Some (omap parse kept)) verbose in
  from_instances call parse instances verbose =
    (List.map ParserParse kept ++ built.1, built.2).
Proof.
  intros kept built. unfold from_instances. rewrite collect_spec. simpl.
  fold kept. fold built. destruct built as [t r]. reflexivity.
Qed.

Lemma Dataset_zip_fields (examples : list ExampleForUnsupervisedSimCSE) :
  Dataset_zip (_to_dataset (List.map input_ids examples))
              (_to_dataset (List.map segment_ids examples))
              (_to_dataset (List.map attention_mask examples))
  = List.map element_int32 examples.
Proof.
  unfold Dataset_zip, _to_dataset, cast. rewrite !List.map_id.
  induction examples as [|e es IH]; [done|]. cbn [List.map zip zip_with].
  by rewrite IH.
Qed.

Lemma take_min_length {A} (l : list A) (n : nat) :
  take (Nat.min n (length l)) l = take n l.
Proof.
  destruct (Nat.min_spec n (length l)) as [[_ ->]|[Hle ->]]; [done|].
  by rewrite !take_ge by lia.
Qed.

Lemma for_each_log_info (examples : list ExampleForUnsupervisedSimCSE) (a m : nat) :
  (a + m <= length examples)%nat ->
  for_each (seq a m)
    (fun i => match examples !! i with
              | Some e => emit (I := instance) (LogInfo i e)
              | None => raise "IndexError"
              end)
  = (imap (fun i e => LogInfo (a + i) e) (take m (drop a examples)), Returns tt).
Proof.
  revert a. induction m as [|m IH]; intros a Ha; [done|].
  destruct (lookup_lt_is_Some_2 examples a) as [e He]; [lia|].
  cbn [seq for_each]. rewrite He, bind_emit, IH by lia.
  rewrite (drop_S _ _ _ He). cbn [take imap fst snd]. rewrite Nat.add_0_r.
  do 2 f_equal. apply imap_ext. intros i x _. simpl. f_equal. lia.
Qed.

(** A non-empty list of examples makes a dataset: [from_examples] logs the
    first five examples when [verbose], and returns the pipeline applied to
    the examples in order, their values as 32-bit integers. *)
Lemma from_examples_nonempty (e : ExampleForUnsupervisedSimCSE)
    (es : list ExampleForUnsupervisedSimCSE) (verbose : bool) :
  from_examples call (Some (e :: es)) verbose =
    ((if verbose then imap (fun i x => LogInfo i x) (take 5 (e :: es)) else []),
     Returns (Some (call (List.map element_int32 (e :: es))))).
Proof.
  unfold from_examples. cbn [examples_falsy default from_option id].
  rewrite Dataset_zip_fields. destruct verbose.
  - rewrite for_each_log_info by lia. rewrite drop_0, take_min_length.
    unfold mbind, eff_bind, bind, mret, ret. by rewrite app_nil_r.
  - reflexivity.
Qed.

(** The "no dataset" value is returned for the empty or null input only. *)
Lemma from_examples_none_iff (examples : option (list ExampleForUnsupervisedSimCSE))
    (verbose : bool) :
  (from_examples call examples verbose).2 = Returns None <->
  examples = None \/ examples = Some [].
Proof.
  destruct examples as [[|e es]|].
  - split; [by right|done].
  - rewrite from_examples_nonempty. split; [done|]. by intros [|].
  - split; [by left|done].
Qed.

End Builders.

(** ** The record codec *)

Section Codec.
Import DatapipeForUnsupervisedSimCSE.

Lemma cast_fits (t : tensor) :
  Forall (fun z => fits_int32 z = true) t -> cast t = t.
Proof.
  unfold cast. induction 1 as [|z t Hz _ IH]; simpl; [done|].
  by rewrite cast_int32_fits, IH.
Qed.

Lemma int64_feature_fits (t : tensor) :
  Forall (fun z => fits_int32 z = true) t ->
  utils.int64_feature (List.map (fun x => x) t) = Some t.
Proof.
  intros Ht. unfold utils.int64_feature. rewrite List.map_id.
  assert (forallb fits_int64 t = true) as ->; [|done].
  apply forallb_forall. intros z Hz. apply fits_int32_fits_int64.
  rewrite List.Forall_forall in Ht. by apply Ht.
Qed.

(** What the two [map] stages read back from a feature dict. *)
Lemma decode_features (fa fb fc : list Z) :
  decode (<[k_input_ids := fa]> (<[k_segment_ids := fb]>
           (<[k_attention_mask := fc]> ∅))) = (cast fa, cast fb, cast fc).
Proof.
  destruct field_names_distinct as (H12 & H13 & H23).
  unfold decode, parse_example, getitem, to_dense.
  rewrite !lookup_insert_eq.
  rewrite !(lookup_insert_ne _ k_input_ids k_segment_ids) by done.
  rewrite !lookup_insert_eq.
  rewrite !(lookup_insert_ne _ k_input_ids k_attention_mask) by done.
  rewrite !(lookup_insert_ne _ k_segment_ids k_attention_mask) by done.
  rewrite !lookup_insert_eq. reflexivity.
Qed.

(** Up to the integer width: whenever an example is encoded at all, what is
    decoded is the three sequences cast to 32 bits, entry by entry. *)
Lemma decode_encoding_cast (e : ExampleForUnsupervisedSimCSE) r :
  DatasetForUnsupervisedSimCSE._encoding e = Some r ->
  decode r = (cast (input_ids e), cast (segment_ids e), cast (attention_mask e)).
Proof.
  unfold DatasetForUnsupervisedSimCSE._encoding, utils.int64_feature. rewrite !List.map_id.
  destruct (forallb fits_int64 (input_ids e)); [|done].
  destruct (forallb fits_int64 (segment_ids e)); [|done].
  destruct (forallb fits_int64 (attention_mask e)); [|done].
  simpl. intros [= <-]. apply decode_features.
Qed.

(** C1.  An example whose values are 32-bit integers is encoded to a
    record, and decoding that record (parse, densify, cast) gives back its
    three sequences, [input_ids], [segment_ids] and [attention_mask],
    unchanged. *)
Theorem decode_encoding_roundtrip (e : ExampleForUnsupervisedSimCSE) :
  example_fits_int32 e ->
  exists r, DatasetForUnsupervisedSimCSE._encoding e = Some r /\ decode r = element_of e.
Proof.
  intros (Ha & Hb & Hc). unfold DatasetForUnsupervisedSimCSE._encoding.
  rewrite !int64_feature_fits by done. simpl.
  eexists. split; [reflexivity|].
  rewrite decode_features. by rewrite !cast_fits.
Qed.

End Codec.

(** The witness of C1: a three-token example. *)
Lemma decode_encoding_roundtrip_witness :
  exists r,
    DatasetForUnsupervisedSimCSE._encoding (mkExample [101; 2023; 102] [0; 0; 0] [1; 1; 1]) = Some r /\
    DatapipeForUnsupervisedSimCSE.decode r = ([101; 2023; 102], [0; 0; 0], [1; 1; 1]).
Proof.
  apply (decode_encoding_roundtrip (mkExample [101; 2023; 102] [0; 0; 0] [1; 1; 1])).
  repeat split; repeat constructor.
Defined.

(** ** Grouping and padding *)

Section Padding.
Import DatapipeForUnsupervisedSimCSE.
Local Open Scope nat_scope.

Lemma resize_filled_from (v : Z) (L : nat) (s : tensor) :
  filled_from v s (resize L v s).
Proof.
  split; intros j; rewrite length_resize; intros H1 H2.
  - by apply lookup_resize.
  - by apply lookup_resize_new.
Qed.

Lemma resize_padded_row (v : Z) (L : nat) (s : tensor) :
  padded_row v L s (resize L v s).
Proof. split; [apply length_resize|apply resize_filled_from]. Qed.

Lemma Forall2_map_same {A B} (P : A -> B -> Prop) (f : A -> B) (g : list A) :
  (forall x, P x (f x)) -> Forall2 P g (List.map f g).
Proof. intros HP. induction g; simpl; constructor; auto. Qed.

Lemma max_list_with_map {A B} (f : B -> nat) (h : A -> B) (l : list A) :
  max_list_with f (List.map h l) = max_list_with (fun x => f (h x)) l.
Proof. induction l as [|x l IH]; simpl; [done|]. by rewrite IH. Qed.

Lemma max_list_with_ge {A} (f : A -> nat) (l : list A) x :
  In x l -> f x <= max_list_with f l.
Proof.
  induction l as [|y l IH]; simpl; [done|].
  intros [->|Hin]; [lia|]. specialize (IH Hin). lia.
Qed.

Lemma max_list_with_attained {A} (f : A -> nat) (l : list A) :
  l <> [] -> exists x, In x l /\ f x = max_list_with f l.
Proof.
  induction l as [|y l IH]; [done|]. intros _. simpl.
  destruct l as [|z l].
  - exists y. simpl. split; [by left|lia].
  - destruct IH as (x & Hin & Hx); [done|].
    destruct (Nat.max_spec (f y) (max_list_with f (z :: l))) as [[_ ->]|[_ ->]].
    + exists x. split; [by right|done].
    + exists y. split; [by left|done].
Qed.

Lemma windows_from_concat {A} (n : nat) (cur l : list A) :
  concat (utils.windows_from n cur l) = cur ++ l.
Proof.
  revert cur. induction l as [|x l IH]; intros cur; simpl.
  - destruct cur; simpl; by rewrite ?app_nil_r.
  - destruct (n <=? length (cur ++ [x])); simpl; rewrite IH; simpl;
      by rewrite <- app_assoc.
Qed.

Lemma windows_In_sub {A} (n : nat) (l g : list A) x :
  In g (utils.windows n l) -> In x g -> In x l.
Proof.
  intros Hg Hx. change l with ([] ++ l).
  rewrite <- (windows_from_concat n [] l). apply in_concat. eauto.
Qed.

Lemma windows_from_spec {A} (n : nat) (cur l : list A) :
  0 < n -> length cur < n ->
  utils.windows_from n cur l =
    if decide (length cur + length l < n)
    then match cur ++ l with [] => [] | _ => [cur ++ l] end
    else (cur ++ take (n - length cur) l)
           :: utils.windows n (drop (n - length cur) l).
Proof.
  intros Hn. revert cur. induction l as [|x l IH]; intros cur Hcur.
  - simpl. rewrite decide_True by lia. rewrite app_nil_r. by destruct cur.
  - cbn [utils.windows_from]. rewrite length_app. cbn [length].
    destruct (Nat.leb_spec n (length cur + 1)) as [Hfull|Hroom].
    + rewrite decide_False by lia.
      replace (n - length cur) with 1 by lia. reflexivity.
    + rewrite IH by (rewrite length_app; simpl; lia).
      rewrite length_app. cbn [length].
      destruct (decide (length cur + 1 + length l < n)) as [Hlt|Hge].
      * rewrite decide_True by lia. rewrite <- app_assoc. simpl.
        by destruct cur.
      * rewrite decide_False by lia.
        replace (n - length cur) with (S (n - (length cur + 1))) by lia.
        simpl. by rewrite <- app_assoc.
Qed.

Lemma windows_unfold {A} (n : nat) (l : list A) :
  0 < n -> l <> [] ->
  utils.windows n l = take n l :: utils.windows n (drop n l).
Proof.
  intros Hn Hl. unfold utils.windows at 1.
  rewrite windows_from_spec by (simpl; lia). simpl. rewrite Nat.sub_0_r.
  destruct (decide (length l < n)) as [Hlt|Hge]; [|done].
  rewrite take_ge, drop_ge by lia. by destruct l.
Qed.

(** The groups are the consecutive slices of the dataset. *)
Lemma windows_lookup {A} (n : nat) (l : list A) (k : nat) :
  0 < n ->
  utils.windows n l !! k =
    if decide (k * n < length l) then Some (take n (drop (k * n) l)) else None.
Proof.
  intros Hn. revert l. induction k as [|k IH]; intros l.
  - destruct l as [|x l]; [done|].
    rewrite decide_True by (simpl; lia). by rewrite windows_unfold.
  - destruct l as [|x l].
    + rewrite decide_False by (simpl; lia). done.
    + rewrite windows_unfold by done. cbn [lookup list_lookup]. rewrite IH.
      rewrite length_drop, drop_drop.
      replace (n + k * n) with (S k * n) by lia.
      destruct (decide (k * n < length (x :: l) - n));
        [rewrite decide_True by lia|rewrite decide_False by lia]; done.
Qed.


Lemma pad_group_fills (shapes : option Z * option Z * option Z) (v : Z)
    (reference g : list element) :
  batch_fills v g (utils.pad_group shapes (v, v, v) reference g).
Proof.
  destruct shapes as [[sa sb] sc]. unfold batch_fills, utils.pad_group, utils.pad_field.
  cbn [fst snd]. rewrite !List.map_map.
  repeat split; apply Forall2_map_same; intros x; apply resize_filled_from.
Qed.

Lemma pad_group_of_group (sa sb sc : option Z) (v : Z) (reference g : list element) :
  batch_of_group v
    (utils.padded_dim sa (List.map (fun x => x.1.1) reference))
    (utils.padded_dim sb (List.map (fun x => x.1.2) reference))
    (utils.padded_dim sc (List.map (fun x => x.2) reference))
    g (utils.pad_group (sa, sb, sc) (v, v, v) reference g).
Proof.
  unfold batch_of_group, utils.pad_group, utils.pad_field.
  cbn [fst snd]. rewrite !List.map_map.
  repeat split; apply Forall2_map_same; intros x; apply resize_padded_row.
Qed.

Lemma batching_lookup (ds : list element) shapes values (n k : nat) :
  0 < n ->
  utils.batching_and_padding ds shapes values n !! k =
    if decide (k * n < length ds)
    then Some (let g := take n (drop (k * n) ds) in utils.pad_group shapes values g g)
    else None.
Proof.
  intros Hn. unfold utils.batching_and_padding.
  rewrite list_lookup_fmap, windows_lookup by done.
  by destruct (decide (k * n < length ds)).
Qed.

End Padding.

(** ** The three padding strategies *)

Section Strategies.
Import DatapipeForUnsupervisedSimCSE.
Local Open Scope nat_scope.

Lemma padded_rows_shape {X} (f : X -> tensor) (v : Z) (L : nat) (g : list X) (rows : tensor2) :
  Forall2 (fun x row => padded_row v L (f x) row) g rows ->
  has_shape rows (length g) (Z.of_nat L).
Proof.
  intros H. split.
  - symmetry. eapply Forall2_length, H.
  - induction H as [|x row g rows [Hlen _] _ IH]; constructor; [|done].
    unfold size. by rewrite Hlen.
Qed.

Lemma bucket_fn_size (x : element) : bucket_fn x = size (x.1.1).
Proof. by destruct x as [[a b] c]. Qed.


Lemma bucket_members_In (bounds : list Z) (ds : list element) (k : nat) x :
  In x (utils.bucket_members bucket_fn bounds ds k) <->
  In x ds /\ utils.bucket_id bounds (size (x.1.1)) = k.
Proof.
  unfold utils.bucket_members. rewrite List.filter_In, bucket_fn_size.
  by rewrite Nat.eqb_eq.
Qed.

Lemma valid_longest_segment_ids (g : list element) :
  Forall valid_element g ->
  max_list_with (fun x : element => length (x.1.2)) g = longest_input_ids g.
Proof.
  unfold longest_input_ids.
  induction 1 as [|x g [Hb _] _ IH]; simpl; [done|]. by rewrite IH, Hb.
Qed.

Lemma valid_longest_attention_mask (g : list element) :
  Forall valid_element g ->
  max_list_with (fun x : element => length (x.2)) g = longest_input_ids g.
Proof.
  unfold longest_input_ids.
  induction 1 as [|x g [_ Hc] _ IH]; simpl; [done|]. by rewrite IH, Hc.
Qed.

Lemma batch_of_group_eq v La Lb Lc La' Lb' Lc' g B :
  La = La' -> Lb = Lb' -> Lc = Lc' ->
  batch_of_group v La Lb Lc g B -> batch_of_group v La' Lb' Lc' g B.
Proof. by intros -> -> ->. Qed.

Lemma _fixed_padding_fits (ds : list element) (pad_id M : Z) (n : nat) :
  fits_int32 pad_id = true -> fits_int32 M = true ->
  _fixed_padding ds pad_id M n =
    utils.batching_and_padding ds (Some M, Some M, Some M) (pad_id, pad_id, pad_id) n.
Proof.
  intros Hp HM. unfold _fixed_padding. by rewrite !tf_constant_int32_fits.
Qed.

Lemma _batch_padding_fits (ds : list element) (pad_id : Z) (n : nat) :
  fits_int32 pad_id = true ->
  _batch_padding ds pad_id n =
    utils.batching_and_padding ds (None, None, None) (pad_id, pad_id, pad_id) n.
Proof. intros Hp. unfold _batch_padding. by rewrite !tf_constant_int32_fits. Qed.




(** C6.  Under batch padding with a [pad_id] that is a 32-bit integer,
    there is a [k]-th batch exactly when the dataset has more than [k * n]
    examples; it is made of the [k]-th group of [n] consecutive examples of
    the dataset, in their order, and each field is padded with [pad_id] to
    the longest sequence of that field in the group, a length one of the
    group's own members has; for valid examples that is the longest
    [input_ids] of the group for all fields. *)
Theorem batch_padding_pads_to_longest_member (ds : list element) (pad_id : Z) (n k : nat) :
  fits_int32 pad_id = true ->
  0 < n ->
  (is_Some (_batch_padding ds pad_id n !! k) <-> k * n < length ds) /\
  forall B, _batch_padding ds pad_id n !! k = Some B ->
    let g := take n (drop (k * n) ds) in
    batch_of_group pad_id (longest_input_ids g)
      (max_list_with (fun x : element => length (x.1.2)) g)
      (max_list_with (fun x : element => length (x.2)) g) g B /\
    has_shape (B.1.1) (length g) (Z.of_nat (longest_input_ids g)) /\
    (exists x, In x g /\ length (x.1.1) = longest_input_ids g) /\
    (Forall valid_element g ->
       batch_of_group pad_id (longest_input_ids g) (longest_input_ids g)
                      (longest_input_ids g) g B).
Proof.
  intros Hp Hn. rewrite _batch_padding_fits by done.
  rewrite batching_lookup by done.
  destruct (decide (k * n < length ds)) as [Hk|Hk].
  2: { split; [|done]. split; [by intros [? ?]|done]. }
  split; [split; [done|eauto]|]. intros B [= <-].
  cbv zeta. set (g := take n (drop (k * n) ds)).
  pose proof (pad_group_of_group None None None pad_id g g) as HB.
  cbn [utils.padded_dim] in HB. rewrite !max_list_with_map in HB.
  cbv beta in HB.
  split; [exact HB|]. split; [|split].
  - destruct HB as (Ha & _). eapply (padded_rows_shape (fun x : element => x.1.1)), Ha.
  - apply max_list_with_attained. intros Hg.
    assert (length g = Nat.min n (length ds - k * n)) as Hlen
      by (unfold g; by rewrite length_take, length_drop).
    rewrite Hg in Hlen. simpl in Hlen. lia.
  - intros Hv. eapply batch_of_group_eq; [| | |exact HB].
    + reflexivity.
    + by apply valid_longest_segment_ids.
    + by apply valid_longest_attention_mask.
Qed.

(** The scenario of C6: two examples whose [input_ids] have lengths 3 and 7,
    batch size 2: one batch, whose [input_ids] has shape (2, 7). *)
Lemma batch_padding_lengths_3_7 (x y : element) (pad_id : Z) :
  length (x.1.1) = 3 -> length (y.1.1) = 7 ->
  exists B, _batch_padding [x; y] pad_id 2 = [B] /\ has_shape (B.1.1) 2 7.
Proof.
  intros Hx Hy. eexists. split; [reflexivity|].
  cbn [app]. unfold utils.pad_group.
  cbn [fst snd List.map utils.pad_field utils.padded_dim max_list_with].
  rewrite Hx, Hy. split; [done|].
  repeat constructor; unfold size; by rewrite length_resize.
Qed.


Lemma bucket_padding_In (ds : list element) (pad_id : Z) (bounds : list Z) (n : nat) B :
  In B (_bucket_padding ds pad_id bounds n) <->
  exists k g, k <= length bounds /\
    In g (utils.windows n (utils.bucket_members bucket_fn bounds ds k)) /\
    B = utils.pad_group (None, None, None)
          (tf_constant_int32 pad_id, tf_constant_int32 pad_id, tf_constant_int32 pad_id)
          (utils.bucket_members bucket_fn bounds ds k) g.
Proof.
  unfold _bucket_padding, utils.bucketing_and_padding, utils.bucket_batches.
  rewrite in_flat_map. split.
  - intros (k & Hk & HB). apply in_seq in Hk. apply in_map_iff in HB as (g & <- & Hg).
    exists k, g. repeat split; [lia|done].
  - intros (k & g & Hk & Hg & ->). exists k. split; [apply in_seq; lia|].
    apply in_map_iff. by exists g.
Qed.


(** C2, as the code has it.  For a [pad_id] that is a 32-bit integer,
    every batch of each of the three strategies is made of examples of the
    dataset, and in all three fields the positions past the true length of
    the sequence hold [pad_id] while the others are unchanged; so the padded
    positions of [attention_mask] hold [pad_id], which is 0 when [pad_id]
    is 0. *)
Theorem padding_fills_with_pad_id (ds : list element) (pad_id M : Z)
    (bounds : list Z) (n : nat) (B : batch) :
  fits_int32 pad_id = true ->
  In B (_fixed_padding ds pad_id M n) \/ In B (_batch_padding ds pad_id n) \/
  In B (_bucket_padding ds pad_id bounds n) ->
  exists g, (forall x, In x g -> In x ds) /\ batch_fills pad_id g B /\
            mask_padding_is pad_id g B /\
            (pad_id = 0%Z -> mask_padding_is 0 g B).
Proof.
  intros Hp HB.
  assert (exists g, (forall x, In x g -> In x ds) /\ batch_fills pad_id g B)
    as (g & Hsub & Hfill).
  { destruct HB as [HB|[HB|HB]].
    - unfold _fixed_padding, utils.batching_and_padding in HB.
      rewrite (tf_constant_int32_fits pad_id Hp) in HB.
      apply in_map_iff in HB as (g & <- & Hg). exists g. split.
      + intros x. by apply windows_In_sub with (n := n).
      + apply pad_group_fills.
    - unfold _batch_padding, utils.batching_and_padding in HB.
      rewrite (tf_constant_int32_fits pad_id Hp) in HB.
      apply in_map_iff in HB as (g & <- & Hg). exists g. split.
      + intros x. by apply windows_In_sub with (n := n).
      + apply pad_group_fills.
    - apply bucket_padding_In in HB as (k & g & _ & Hg & ->).
      rewrite (tf_constant_int32_fits pad_id Hp). exists g. split.
      + intros x Hx. eapply windows_In_sub in Hx; [|exact Hg].
        by apply bucket_members_In in Hx as [Hx _].
      + apply pad_group_fills. }
  assert (mask_padding_is pad_id g B) as Hmask.
  { destruct Hfill as (_ & _ & Hc). unfold mask_padding_is.
    eapply Forall2_impl; [exact Hc|]. intros x row [_ Hpad]. exact Hpad. }
  exists g. split; [done|]. split; [done|]. split; [done|]. by intros <-.
Qed.

End Strategies.

(** ** Concrete runs *)



(** The witness of C6: the scenario of lengths 3 and 7 with batch size 2. *)
Lemma batch_padding_pads_to_longest_member_witness :
  let g : list element :=
    [([5; 6; 7], [0; 0; 0], [1; 1; 1]);
     ([5; 6; 7; 8; 9; 10; 11], [0; 0; 0; 0; 0; 0; 0], [1; 1; 1; 1; 1; 1; 1])] in
  let B : batch :=
    ([[5; 6; 7; 0; 0; 0; 0]; [5; 6; 7; 8; 9; 10; 11]],
     [[0; 0; 0; 0; 0; 0; 0]; [0; 0; 0; 0; 0; 0; 0]],
     [[1; 1; 1; 0; 0; 0; 0]; [1; 1; 1; 1; 1; 1; 1]]) in
  DatapipeForUnsupervisedSimCSE._batch_padding g 0 2 = [B] /\
  (batch_of_group 0 7 7 7 g B /\
   has_shape (B.1.1) 2 7 /\
   (exists x, In x g /\ length (x.1.1) = 7%nat) /\
   (Forall valid_element g -> batch_of_group 0 7 7 7 g B)).
Proof.
  split; [reflexivity|].
  apply (proj2 (batch_padding_pads_to_longest_member
           [([5; 6; 7], [0; 0; 0], [1; 1; 1]);
            ([5; 6; 7; 8; 9; 10; 11], [0; 0; 0; 0; 0; 0; 0], [1; 1; 1; 1; 1; 1; 1])]
           0 2 0 eq_refl ltac:(lia))
         ([[5; 6; 7; 0; 0; 0; 0]; [5; 6; 7; 8; 9; 10; 11]],
          [[0; 0; 0; 0; 0; 0; 0]; [0; 0; 0; 0; 0; 0; 0]],
          [[1; 1; 1; 0; 0; 0; 0]; [1; 1; 1; 1; 1; 1; 1]])).
  reflexivity.
Defined.


(** The counterexample of C2: with [pad_id = 1], batch padding of two
    examples of lengths 3 and 1 fills the mask of the second with 1, not 0. *)
Lemma mask_padding_not_zero_counterexample :
  let g : list element := [([5; 6; 7], [0; 0; 0], [1; 1; 1]); ([5], [0], [1])] in
  exists B, DatapipeForUnsupervisedSimCSE._batch_padding g 1 2 = [B] /\
            B.2 = [[1; 1; 1]; [1; 1; 1]] /\
            ~ mask_padding_is 0 g B.
Proof.
  eexists. split; [reflexivity|]. split; [reflexivity|].
  unfold mask_padding_is. intros H.
  apply Forall2_cons_1 in H as [_ H]. apply Forall2_cons_1 in H as [H _].
  specialize (H 1%nat). simpl in H.
  assert (Some 1 = Some 0) as E by (apply H; lia). discriminate E.
Qed.

(** The witness of C2 as amended: the batch of the counterexample. *)
Lemma padding_fills_with_pad_id_witness :
  let ds : list element := [([5; 6; 7], [0; 0; 0], [1; 1; 1]); ([5], [0], [1])] in
  let B : batch :=
    ([[5; 6; 7]; [5; 1; 1]], [[0; 0; 0]; [0; 1; 1]], [[1; 1; 1]; [1; 1; 1]]) in
  exists g, (forall x, In x g -> In x ds) /\ batch_fills 1 g B /\
            mask_padding_is 1 g B /\ (1 = 0 -> mask_padding_is 0 g B).
Proof.
  apply (padding_fills_with_pad_id
           [([5; 6; 7], [0; 0; 0], [1; 1; 1]); ([5], [0], [1])] 1 512 [] 2
           ([[5; 6; 7]; [5; 1; 1]], [[0; 0; 0]; [0; 1; 1]], [[1; 1; 1]; [1; 1; 1]])).
  - reflexivity.
  - right; left. simpl. left. reflexivity.
Defined.

(** The scenario of the raw-text path: the empty text is dropped before
    parsing, the two others are parsed and handed on in order.  The parser
    here yields one token per character. *)
Example from_instances_scenario :
  let parse := fun i =>
    match i with
    | IText s => Some (mkExample (replicate (String.length s) 7) (replicate (String.length s) 0)
                                 (replicate (String.length s) 1))
    | _ => None
    end in
  DatapipeForUnsupervisedSimCSE.from_instances (fun ds => ds) parse [IText "cat"; IText ""; IText "ox"] false =
    ([ParserParse (IText "cat"); ParserParse (IText "ox")],
     Returns (Some [([7; 7; 7], [0; 0; 0], [1; 1; 1]); ([7; 7], [0; 0], [1; 1])])).
Proof. reflexivity. Qed.

(** ** More on the filter stage *)

Section FilterMore.
Import DatapipeForUnsupervisedSimCSE.

Lemma filter_fn_mono (M M' : Z) (x : element) :
  fits_int32 M = true -> fits_int32 M' = true ->
  M <= M' -> filter_fn M x = true -> filter_fn M' x = true.
Proof.
  intros HM HM'. destruct x as [[a b] c]. rewrite !filter_fn_spec by done. lia.
Qed.

Lemma _filter_within (ds : list element) (M : Z) :
  fits_int32 M = true ->
  Forall (fun x : element => size (x.1.1) <= M) (_filter ds true M).
Proof.
  intros HM. apply List.Forall_forall. intros x Hx.
  by apply _filter_In in Hx as [_ Hx].
Qed.

Lemma _filter_all_within (ds : list element) (M : Z) :
  fits_int32 M = true ->
  Forall (fun x : element => size (x.1.1) <= M) ds -> _filter ds true M = ds.
Proof.
  intros HM. rewrite _filter_on. induction 1 as [|[[a b] c] ds Hx _ IH]; [done|].
  cbn [List.filter]. rewrite (proj2 (filter_fn_spec M a b c HM) Hx). by rewrite IH.
Qed.

(** X1.  For bounds that are 32-bit integers, filtering twice is filtering
    once with the smaller bound, in either order of the two passes; in
    particular the filter is idempotent. *)
Theorem filter_twice_keeps_smaller_bound (ds : list element) (M M' : Z) :
  fits_int32 M = true -> fits_int32 M' = true ->
  M <= M' ->
  _filter (_filter ds true M') true M = _filter ds true M /\
  _filter (_filter ds true M) true M' = _filter ds true M.
Proof.
  intros H32 H32' HM. split.
  - rewrite !_filter_on. induction ds as [|x ds IH]; [done|]. cbn [List.filter].
    destruct (filter_fn M x) eqn:Hx.
    + rewrite (filter_fn_mono M M' x H32 H32' HM Hx). cbn [List.filter].
      by rewrite Hx, IH.
    + destruct (filter_fn M' x); [cbn [List.filter]; rewrite Hx|]; exact IH.
  - apply _filter_all_within; [done|].
    eapply Forall_impl; [by apply _filter_within|].
    intros x Hx. simpl in Hx. lia.
Qed.

(** X2.  For a bound [M] that is a 32-bit integer, the filter returns the
    dataset unchanged exactly when every element has at most [M] input ids;
    otherwise the result is strictly shorter. *)
Theorem filter_identity_iff_all_within (ds : list element) (M : Z) :
  fits_int32 M = true ->
  (_filter ds true M = ds <-> Forall (fun x : element => size (x.1.1) <= M) ds) /\
  (length (_filter ds true M) <= length ds)%nat /\
  (length (_filter ds true M) = length ds -> _filter ds true M = ds).
Proof.
  intros HM.
  assert (forall l : list element,
            length (List.filter (filter_fn M) l) <= length l)%nat as Hlen.
  { induction l as [|x l IH]; [done|]. cbn [List.filter].
    destruct (filter_fn M x); simpl; lia. }
  split; [|split].
  - split; [|by apply _filter_all_within].
    intros <-. by apply _filter_within.
  - rewrite _filter_on. apply Hlen.
  - rewrite _filter_on. induction ds as [|x ds IH]; [done|]. cbn [List.filter].
    destruct (filter_fn M x); simpl.
    + intros [= H]. by rewrite IH.
    + intros H. specialize (Hlen ds). lia.
Qed.

(** X3.  A negative bound that is a 32-bit integer filters every element
    out, the empty sequences included, while with [do_filter=False] the same
    bound changes nothing. *)
Theorem filter_negative_bound_drops_all (ds : list element) (M : Z) :
  fits_int32 M = true ->
  M < 0 -> _filter ds true M = [] /\ _filter ds false M = ds.
Proof.
  intros H32 HM. split; [|reflexivity]. rewrite _filter_on.
  induction ds as [|[[a b] c] ds IH]; [done|]. cbn [List.filter].
  destruct (filter_fn M (a, b, c)) eqn:Hx; [|exact IH].
  apply filter_fn_spec in Hx; [|done]. unfold size in Hx. lia.
Qed.

End FilterMore.

(** The witness of X1: bounds 2 and 5. *)
Lemma filter_twice_keeps_smaller_bound_witness :
  let ds : list element :=
    [([1; 2; 3], [0; 0; 0], [1; 1; 1]); ([4], [0], [1]);
     ([1; 2; 3; 4; 5; 6], [0; 0; 0; 0; 0; 0], [1; 1; 1; 1; 1; 1])] in
  DatapipeForUnsupervisedSimCSE._filter
    (DatapipeForUnsupervisedSimCSE._filter ds true 5) true 2 =
    DatapipeForUnsupervisedSimCSE._filter ds true 2 /\
  DatapipeForUnsupervisedSimCSE._filter
    (DatapipeForUnsupervisedSimCSE._filter ds true 2) true 5 =
    DatapipeForUnsupervisedSimCSE._filter ds true 2.
Proof.
  apply (filter_twice_keeps_smaller_bound
           [([1; 2; 3], [0; 0; 0], [1; 1; 1]); ([4], [0], [1]);
            ([1; 2; 3; 4; 5; 6], [0; 0; 0; 0; 0; 0], [1; 1; 1; 1; 1; 1])] 2 5).
  - reflexivity.
  - reflexivity.
  - lia.
Defined.

(** The witness of X2: bound 3, one element beyond it. *)
Lemma filter_identity_iff_all_within_witness :
  let ds : list element :=
    [([1; 2; 3], [0; 0; 0], [1; 1; 1]); ([1; 2; 3; 4], [0; 0; 0; 0], [1; 1; 1; 1])] in
  (DatapipeForUnsupervisedSimCSE._filter ds true 3 = ds <->
     Forall (fun x : element => size (x.1.1) <= 3) ds) /\
  (length (DatapipeForUnsupervisedSimCSE._filter ds true 3) <= length ds)%nat /\
  (length (DatapipeForUnsupervisedSimCSE._filter ds true 3) = length ds ->
     DatapipeForUnsupervisedSimCSE._filter ds true 3 = ds).
Proof.
  apply (filter_identity_iff_all_within
           [([1; 2; 3], [0; 0; 0], [1; 1; 1]);
            ([1; 2; 3; 4], [0; 0; 0; 0], [1; 1; 1; 1])] 3).
  reflexivity.
Defined.

(** The witness of X3: bound -1, an empty example among the elements. *)
Lemma filter_negative_bound_drops_all_witness :
  let ds : list element := [([], [], []); ([4], [0], [1])] in
  DatapipeForUnsupervisedSimCSE._filter ds true (-1) = [] /\
  DatapipeForUnsupervisedSimCSE._filter ds false (-1) = ds.
Proof.
  apply (filter_negative_bound_drops_all [([], [], []); ([4], [0], [1])] (-1)).
  - reflexivity.
  - lia.
Defined.

(** ** More on the shape stage *)

Section ShapeMore.
Import DatapipeForUnsupervisedSimCSE.
Context {T : Type}.

Lemma shaped_dict_inj (a b c a' b' c' : T) :
  <[k_input_ids := a]> (<[k_segment_ids := b]> (<[k_attention_mask := c]> ∅))
  = (<[k_input_ids := a']> (<[k_segment_ids := b']>
       (<[k_attention_mask := c']> (∅ : gmap string T)))) ->
  (a, b, c) = (a', b', c').
Proof.
  intros H. destruct field_names_distinct as (H12 & H13 & H23).
  pose proof (f_equal (fun d => d !! k_input_ids) H) as Ha.
  pose proof (f_equal (fun d => d !! k_segment_ids) H) as Hb.
  pose proof (f_equal (fun d => d !! k_attention_mask) H) as Hc.
  cbv beta in Ha, Hb, Hc.
  rewrite !lookup_insert_eq in Ha.
  rewrite !(lookup_insert_ne _ k_input_ids k_segment_ids), !lookup_insert_eq in Hb by done.
  rewrite !(lookup_insert_ne _ k_input_ids k_attention_mask),
          !(lookup_insert_ne _ k_segment_ids k_attention_mask),
          !lookup_insert_eq in Hc by done.
  congruence.
Qed.

(** X4.  The shape stage keeps the number of elements and loses nothing:
    two datasets shaped alike, as dicts or as tuples, are equal. *)
Theorem to_dict_keeps_length_and_content (ds : list (T * T * T)) (flag : bool) :
  length (_to_dict ds flag) = length ds /\
  forall ds', _to_dict ds flag = _to_dict ds' flag -> ds = ds'.
Proof.
  split; [apply _to_dict_length|].
  induction ds as [|[[a b] c] ds IH]; intros [|[[a' b'] c'] ds'];
    destruct flag; unfold _to_dict; cbn [negb List.map]; try done.
  - intros H.
    pose proof (f_equal (fun l : list (shaped T) =>
                  match l with (FDict d, _) :: _ => Some d | _ => None end) H) as Hd.
    pose proof (f_equal (fun l : list (shaped T) => tail l) H) as Hrest.
    cbv beta iota in Hd. cbn [tail] in Hrest.
    apply (inj Some) in Hd. apply shaped_dict_inj in Hd.
    f_equal; [done|]. apply (IH ds'). exact Hrest.
  - intros H.
    pose proof (f_equal (fun l : list (shaped T) =>
                  match l with (FTuple x y z, _) :: _ => Some (x, y, z) | _ => None end) H)
      as Hd.
    pose proof (f_equal (fun l : list (shaped T) => tail l) H) as Hrest.
    cbv beta iota in Hd. cbn [tail] in Hrest.
    injection Hd as -> -> ->. f_equal. apply (IH ds'). exact Hrest.
Qed.

End ShapeMore.

(** ** More on the record codec *)

Section CodecMore.
Import DatapipeForUnsupervisedSimCSE.

Lemma cast_int32_range z : fits_int32 (cast_int32 z) = true.
Proof.
  unfold fits_int32, int32_min, int32_max, cast_int32.
  pose proof (Z.mod_pos_bound (z + 2 ^ 31) (2 ^ 32) ltac:(lia)).
  rewrite andb_true_iff, !Z.leb_le. lia.
Qed.

Lemma cast_eq_iff (t : tensor) : cast t = t <-> tensor_fits_int32 t.
Proof.
  split; [|apply cast_fits]. unfold cast, tensor_fits_int32.
  induction t as [|z t IH]; [constructor|]. cbn [List.map].
  intros H.
  pose proof (f_equal (fun l : list Z => head l) H) as Hz.
  pose proof (f_equal (fun l : list Z => tail l) H) as Ht.
  cbn in Hz, Ht. apply (inj Some) in Hz. constructor; [|by apply IH].
  rewrite <- Hz. apply cast_int32_range.
Qed.

Lemma cast_within (t : tensor) : tensor_fits_int32 (cast t).
Proof.
  unfold cast, tensor_fits_int32. induction t; constructor; [apply cast_int32_range|done].
Qed.

(** What the two [map] stages read from any record. *)
Lemma decode_lookup (r : gmap string (list Z)) :
  decode r = (cast (default [] (r !! k_input_ids)),
              cast (default [] (r !! k_segment_ids)),
              cast (default [] (r !! k_attention_mask))).
Proof.
  destruct field_names_distinct as (H12 & H13 & H23).
  unfold decode, parse_example, getitem, to_dense.
  rewrite !lookup_insert_eq.
  rewrite !(lookup_insert_ne _ k_input_ids k_segment_ids) by done.
  rewrite !lookup_insert_eq.
  rewrite !(lookup_insert_ne _ k_input_ids k_attention_mask) by done.
  rewrite !(lookup_insert_ne _ k_segment_ids k_attention_mask) by done.
  rewrite !lookup_insert_eq. reflexivity.
Qed.

Lemma encoding_Some (e : ExampleForUnsupervisedSimCSE) r :
  DatasetForUnsupervisedSimCSE._encoding e = Some r ->
  r = <[k_input_ids := input_ids e]>
        (<[k_segment_ids := segment_ids e]>
          (<[k_attention_mask := attention_mask e]> ∅)).
Proof.
  unfold DatasetForUnsupervisedSimCSE._encoding, utils.int64_feature.
  rewrite !List.map_id.
  destruct (forallb fits_int64 (input_ids e)); [|done].
  destruct (forallb fits_int64 (segment_ids e)); [|done].
  destruct (forallb fits_int64 (attention_mask e)); [|done].
  simpl. by intros [= <-].
Qed.

(** X5.  Whenever an example is encoded, decoding its record gives the
    three sequences cast to 32 bits entry by entry, and this is the example
    itself exactly when all its values are 32-bit integers: a larger value
    comes back wrapped. *)
Theorem roundtrip_exact_iff_int32 (e : ExampleForUnsupervisedSimCSE) r :
  DatasetForUnsupervisedSimCSE._encoding e = Some r ->
  decode r = (cast (input_ids e), cast (segment_ids e), cast (attention_mask e)) /\
  (decode r = element_of e <-> example_fits_int32 e).
Proof.
  intros Hr. apply encoding_Some in Hr as ->. rewrite decode_features.
  split; [done|]. unfold element_of, example_fits_int32. split.
  - intros H.
    pose proof (f_equal (fun x : element => x.1.1) H) as Ha.
    pose proof (f_equal (fun x : element => x.1.2) H) as Hb.
    pose proof (f_equal (fun x : element => x.2) H) as Hc.
    cbn in Ha, Hb, Hc. by rewrite <- !cast_eq_iff.
  - intros (Ha & Hb & Hc). by rewrite !cast_fits.
Qed.

(** X6.  Whatever the record, the three decoded sequences hold 32-bit
    integers only, and each has as many entries as the field it is read
    from (none for a field the record does not have). *)
Theorem decode_yields_int32_of_same_length (r : gmap string (list Z)) :
  (tensor_fits_int32 ((decode r).1.1) /\ tensor_fits_int32 ((decode r).1.2) /\
   tensor_fits_int32 ((decode r).2)) /\
  length ((decode r).1.1) = length (default [] (r !! k_input_ids)) /\
  length ((decode r).1.2) = length (default [] (r !! k_segment_ids)) /\
  length ((decode r).2) = length (default [] (r !! k_attention_mask)).
Proof.
  rewrite decode_lookup. cbn [fst snd]. unfold cast.
  rewrite !length_map. repeat split; apply cast_within.
Qed.

(** X7.  Decoding reads the three named fields only: adding, changing or
    removing any other field of the record changes nothing. *)
Theorem decode_reads_three_fields_only (r : gmap string (list Z)) (k : string)
    (v : list Z) :
  k <> k_input_ids -> k <> k_segment_ids -> k <> k_attention_mask ->
  decode (<[k := v]> r) = decode r /\ decode (delete k r) = decode r.
Proof.
  intros H1 H2 H3. rewrite !decode_lookup.
  rewrite !lookup_insert_ne, !lookup_delete_ne by done. done.
Qed.

(** X8.  A record without one of the three fields is decoded without error:
    the missing field gives the empty sequence and the two others are read
    as before. *)
Theorem decode_missing_field_is_empty (r : gmap string (list Z)) :
  decode (delete k_input_ids r) = ([], (decode r).1.2, (decode r).2) /\
  decode (delete k_segment_ids r) = ((decode r).1.1, [], (decode r).2) /\
  decode (delete k_attention_mask r) = ((decode r).1.1, (decode r).1.2, []).
Proof.
  destruct field_names_distinct as (H12 & H13 & H23).
  rewrite !decode_lookup. cbn [fst snd].
  rewrite !lookup_delete_eq.
  rewrite !(lookup_delete_ne _ k_input_ids k_segment_ids) by done.
  rewrite !(lookup_delete_ne _ k_input_ids k_attention_mask) by done.
  rewrite !(lookup_delete_ne _ k_segment_ids k_input_ids) by done.
  rewrite !(lookup_delete_ne _ k_segment_ids k_attention_mask) by done.
  rewrite !(lookup_delete_ne _ k_attention_mask k_input_ids) by done.
  rewrite !(lookup_delete_ne _ k_attention_mask k_segment_ids) by done.
  done.
Qed.

Lemma roundtrip_exact_iff_int32_aux (e : ExampleForUnsupervisedSimCSE) r :
  DatasetForUnsupervisedSimCSE._encoding e = Some r ->
  example_fits_int32 e -> decode r = element_of e.
Proof.
  intros Hr (Ha & Hb & Hc). apply encoding_Some in Hr as ->.
  rewrite decode_features. unfold element_of. by rewrite !cast_fits.
Qed.

Lemma decode_encoded_examples (examples : list ExampleForUnsupervisedSimCSE)
    (records : list (gmap string (list Z))) :
  Forall example_fits_int32 examples ->
  Forall2 (fun e r => DatasetForUnsupervisedSimCSE._encoding e = Some r) examples records ->
  List.map decode records = List.map element_of examples.
Proof.
  intros Hfit H. induction H as [|e r es rs Hr _ IH]; [done|].
  apply Forall_cons in Hfit as [He Hes]. cbn [List.map].
  rewrite (IH Hes). f_equal.
  by apply (roundtrip_exact_iff_int32_aux e r).
Qed.

End CodecMore.

(** ** More on the builders *)

Section BuildersMore.
Import DatapipeForUnsupervisedSimCSE.
Context {D : Type} (call : list element -> D).
Context (parse : instance -> option ExampleForUnsupervisedSimCSE).
Context (read : list string -> list instance).



Lemma from_examples_list (examples : list ExampleForUnsupervisedSimCSE) (verbose : bool) :
  from_examples call (Some examples) verbose =
    match examples with
    | [] => ([LogWarning empty_warning], Returns None)
    | _ => ((if verbose then imap (fun i x => LogInfo i x) (take 5 examples) else []),
            Returns (Some (call (List.map element_int32 examples))))
    end.
Proof. destruct examples as [|e es]; [done|]. apply from_examples_nonempty. Qed.

Lemma elements_int32_fits (examples : list ExampleForUnsupervisedSimCSE) :
  Forall example_fits_int32 examples ->
  List.map element_int32 examples = List.map element_of examples.
Proof.
  induction 1 as [|e es (Ha & Hb & Hc) _ IH]; [done|]. cbn [List.map].
  rewrite IH. f_equal. unfold element_int32, element_of.
  pose proof (cast_fits _ Ha) as Ea. pose proof (cast_fits _ Hb) as Eb.
  pose proof (cast_fits _ Hc) as Ec. unfold cast in Ea, Eb, Ec.
  by rewrite Ea, Eb, Ec.
Qed.



Lemma omap_id_fmap {A B} (f : A -> option B) (l : list A) :
  omap (fun e => e) (List.map f l) = omap f l.
Proof.
  induction l as [|x l IH]; [done|]. cbn. destruct (f x); by rewrite IH.
Qed.




(** X13.  [from_dataset] skips the [None] items wherever they stand and
    builds from the examples in order; building from instances is parsing
    the non-empty instances and building from the parse results as a
    dataset, the parser calls coming first. *)
Theorem from_dataset_skips_none_items
    (l1 l2 : list (option ExampleForUnsupervisedSimCSE))
    (examples : list ExampleForUnsupervisedSimCSE)
    (instances : list instance) (verbose : bool) :
  from_dataset call (l1 ++ None :: l2) verbose = from_dataset call (l1 ++ l2) verbose /\
  from_dataset call (List.map Some examples) verbose =
    from_examples call (Some examples) verbose /\
  (let kept := List.filter instance_truthy instances in
   let built := from_dataset call (List.map parse kept) verbose in
   from_instances call parse instances verbose =
     (List.map ParserParse kept ++ built.1, built.2)).
Proof.
  unfold from_dataset. split; [|split].
  - by rewrite !omap_app.
  - do 2 f_equal. induction examples as [|e es IH]; [done|]. cbn. by rewrite IH.
  - cbv zeta. rewrite omap_id_fmap. unfold from_instances.
    rewrite collect_spec. cbn [app]. unfold mbind, eff_bind, bind.
    by destruct (from_examples call _ verbose).
Qed.

(** X14.  The record path and the in-memory path build the same dataset:
    for examples of 32-bit values, the records that are their encodings are
    decoded to the very elements [from_examples] hands to the pipeline. *)
Theorem record_path_builds_same_dataset
    (examples : list ExampleForUnsupervisedSimCSE)
    (records : list (gmap string (list Z))) (verbose : bool) :
  examples <> [] ->
  Forall example_fits_int32 examples ->
  mapM DatasetForUnsupervisedSimCSE._encoding examples = Some records ->
  from_tfrecord_files call records = call (List.map element_of examples) /\
  (from_examples call (Some examples) verbose).2 =
    Returns (Some (from_tfrecord_files call records)).
Proof.
  intros Hne Hfit Hrec. apply mapM_Some in Hrec.
  unfold from_tfrecord_files. rewrite (decode_encoded_examples _ _ Hfit Hrec).
  split; [done|]. rewrite from_examples_list, (elements_int32_fits _ Hfit).
  by destruct examples.
Qed.

End BuildersMore.

(** ** More on the padding strategies *)

Section StrategiesMore.
Import DatapipeForUnsupervisedSimCSE.
Local Open Scope nat_scope.

Lemma In_slice {A} (n m : nat) (l : list A) x :
  In x (take n (drop m l)) -> In x l.
Proof.
  intros Hx. rewrite <- (take_drop m l). apply in_or_app. right.
  rewrite <- (take_drop n (drop m l)). apply in_or_app. by left.
Qed.

Lemma resize_only_padded (v : Z) (L : nat) (s : tensor) :
  length s <= L -> only_padded v s (resize L v s).
Proof.
  intros Hle. unfold only_padded. rewrite length_resize. by apply resize_ge.
Qed.

Lemma rows_only_padded {X} (f : X -> tensor) (v : Z) (L : nat) (g : list X) :
  (forall x, In x g -> length (f x) <= L) ->
  Forall2 (fun x row => only_padded v (f x) row /\ length row = L)
          g (List.map (resize L v) (List.map f g)).
Proof.
  induction g as [|x g IH]; intros Hle; cbn [List.map]; constructor.
  - split; [apply resize_only_padded, Hle; by left|apply length_resize].
  - apply IH. intros y Hy. apply Hle. by right.
Qed.

Lemma pad_group_only_pads (sa sb sc : option Z) (v : Z) (reference g : list element) :
  (forall x, In x g ->
     length (x.1.1) <= utils.padded_dim sa (List.map (fun x => x.1.1) reference) /\
     length (x.1.2) <= utils.padded_dim sb (List.map (fun x => x.1.2) reference) /\
     length (x.2) <= utils.padded_dim sc (List.map (fun x => x.2) reference)) ->
  let B := utils.pad_group (sa, sb, sc) (v, v, v) reference g in
  Forall2 (fun x row => only_padded v (x.1.1) row /\
             length row = utils.padded_dim sa (List.map (fun x => x.1.1) reference))
          g (B.1.1) /\
  Forall2 (fun x row => only_padded v (x.1.2) row /\
             length row = utils.padded_dim sb (List.map (fun x => x.1.2) reference))
          g (B.1.2) /\
  Forall2 (fun x row => only_padded v (x.2) row /\
             length row = utils.padded_dim sc (List.map (fun x => x.2) reference))
          g (B.2).
Proof.
  intros Hle. cbv zeta. unfold utils.pad_group, utils.pad_field. cbn [fst snd].
  repeat split.
  - apply (rows_only_padded (fun x : element => x.1.1)). intros x Hx. by apply Hle.
  - apply (rows_only_padded (fun x : element => x.1.2)). intros x Hx. by apply Hle.
  - apply (rows_only_padded (fun x : element => x.2)). intros x Hx. by apply Hle.
Qed.

Lemma unknown_dim_covers (f : element -> tensor) (reference : list element) x :
  In x reference ->
  length (f x) <= utils.padded_dim None (List.map f reference).
Proof.
  intros Hx. cbn [utils.padded_dim]. rewrite max_list_with_map.
  by apply (max_list_with_ge (fun y => length (f y))).
Qed.

Lemma Forall2_drop_length {X} (P : X -> tensor -> Prop) (L : nat) g rows :
  Forall2 (fun x row => P x row /\ length row = L) g rows -> Forall2 P g rows.
Proof. intros H. eapply Forall2_impl; [exact H|]. by intros x row [? _]. Qed.

(** X15.  For a bound [M] and a [pad_id] that are 32-bit integers: after
    the filter with bound [M], fixed padding with the same [M] cuts nothing
    of a valid example: in every batch each row is the whole sequence of its
    example followed by [pad_id] up to length [M], for all three fields. *)
Theorem filter_then_fixed_padding_only_pads (ds : list element) (pad_id M : Z)
    (n k : nat) (B : batch) :
  fits_int32 pad_id = true -> fits_int32 M = true ->
  (0 <= M)%Z -> 0 < n -> Forall valid_element ds ->
  _fixed_padding (_filter ds true M) pad_id M n !! k = Some B ->
  let g := take n (drop (k * n) (_filter ds true M)) in
  Forall2 (fun x row => only_padded pad_id (x.1.1) row /\ size row = M) g (B.1.1) /\
  Forall2 (fun x row => only_padded pad_id (x.1.2) row /\ size row = M) g (B.1.2) /\
  Forall2 (fun x row => only_padded pad_id (x.2) row /\ size row = M) g (B.2).
Proof.
  intros Hp HM32 HM Hn Hv HB g. rewrite _fixed_padding_fits in HB by done.
  rewrite batching_lookup in HB by done.
  destruct (decide (k * n < length (_filter ds true M))) as [Hk|]; [|done].
  injection HB as <-. fold g.
  assert (forall x, In x g -> length (x.1.1) <= Z.to_nat M /\
                               length (x.1.2) <= Z.to_nat M /\
                               length (x.2) <= Z.to_nat M) as Hle.
  { intros x Hx. unfold g in Hx. apply In_slice in Hx.
    apply _filter_In in Hx as [Hin Hsize]; [|done].
    rewrite List.Forall_forall in Hv. destruct (Hv x Hin) as [Hb Hc].
    unfold size in Hsize. rewrite <- Hb, <- Hc. lia. }
  pose proof (pad_group_only_pads (Some M) (Some M) (Some M) pad_id g g Hle)
    as (Ha & Hb & Hc).
  cbn [utils.padded_dim] in Ha, Hb, Hc.
  repeat split; (eapply Forall2_impl; [eassumption|]);
    intros x row [Hrow Hl]; (split; [exact Hrow|]); unfold size; rewrite Hl; lia.
Qed.

(** X16.  For a [pad_id] that is a 32-bit integer, batch padding and bucket
    padding never cut a sequence: every row of every batch is the whole
    sequence of an example of the dataset followed by [pad_id] only, in all
    three fields. *)
Theorem dynamic_padding_never_cuts (ds : list element) (pad_id : Z)
    (bounds : list Z) (n : nat) (B : batch) :
  fits_int32 pad_id = true ->
  In B (_batch_padding ds pad_id n) \/ In B (_bucket_padding ds pad_id bounds n) ->
  exists g, (forall x, In x g -> In x ds) /\
    Forall2 (fun x row => only_padded pad_id (x.1.1) row) g (B.1.1) /\
    Forall2 (fun x row => only_padded pad_id (x.1.2) row) g (B.1.2) /\
    Forall2 (fun x row => only_padded pad_id (x.2) row) g (B.2).
Proof.
  intros Hp [HB|HB].
  - rewrite _batch_padding_fits in HB by done.
    unfold utils.batching_and_padding in HB.
    apply in_map_iff in HB as (g & <- & Hg). exists g. split.
    { intros x. by apply windows_In_sub with (n := n). }
    assert (forall x, In x g ->
              length (x.1.1) <= utils.padded_dim None (List.map (fun x => x.1.1) g) /\
              length (x.1.2) <= utils.padded_dim None (List.map (fun x => x.1.2) g) /\
              length (x.2) <= utils.padded_dim None (List.map (fun x => x.2) g)) as Hle.
    { intros x Hx. repeat split.
      - by apply (unknown_dim_covers (fun x => x.1.1)).
      - by apply (unknown_dim_covers (fun x => x.1.2)).
      - by apply (unknown_dim_covers (fun x => x.2)). }
    pose proof (pad_group_only_pads None None None pad_id g g Hle) as (Ha & Hb & Hc).
    repeat split; eapply Forall2_drop_length; eassumption.
  - apply bucket_padding_In in HB as (k & g & _ & Hg & ->).
    rewrite (tf_constant_int32_fits pad_id Hp).
    set (members := utils.bucket_members bucket_fn bounds ds k) in *.
    exists g. split.
    { intros x Hx. eapply windows_In_sub in Hx; [|exact Hg].
      by apply bucket_members_In in Hx as [Hx _]. }
    assert (forall x, In x g ->
              length (x.1.1) <= utils.padded_dim None (List.map (fun x => x.1.1) members) /\
              length (x.1.2) <= utils.padded_dim None (List.map (fun x => x.1.2) members) /\
              length (x.2) <= utils.padded_dim None (List.map (fun x => x.2) members)) as Hle.
    { intros x Hx. eapply windows_In_sub in Hx; [|exact Hg]. repeat split.
      - by apply (unknown_dim_covers (fun x => x.1.1)).
      - by apply (unknown_dim_covers (fun x => x.1.2)).
      - by apply (unknown_dim_covers (fun x => x.2)). }
    pose proof (pad_group_only_pads None None None pad_id members g Hle) as (Ha & Hb & Hc).
    repeat split; eapply Forall2_drop_length; eassumption.
Qed.

End StrategiesMore.

(** ** Concrete runs of the further properties *)

(** The witness of X5: the value 2^32 + 5 is encoded and comes back as 5. *)
Lemma roundtrip_exact_iff_int32_witness :
  let e := mkExample [2 ^ 32 + 5; 7] [0; 0] [1; 1] in
  let r : gmap string (list Z) :=
    <[k_input_ids := [2 ^ 32 + 5; 7]]>
      (<[k_segment_ids := [0; 0]]> (<[k_attention_mask := [1; 1]]> ∅)) in
  DatapipeForUnsupervisedSimCSE.decode r = ([5; 7], [0; 0], [1; 1]) /\
  (DatapipeForUnsupervisedSimCSE.decode r = element_of e <-> example_fits_int32 e).
Proof.
  apply (roundtrip_exact_iff_int32 (mkExample [2 ^ 32 + 5; 7] [0; 0] [1; 1])
           (<[k_input_ids := [2 ^ 32 + 5; 7]]>
              (<[k_segment_ids := [0; 0]]> (<[k_attention_mask := [1; 1]]> ∅)))).
  reflexivity.
Defined.

(** The witness of X7: a record with a fourth field [tokens]. *)
Lemma decode_reads_three_fields_only_witness :
  let r : gmap string (list Z) :=
    <[k_input_ids := [5; 7]]>
      (<[k_segment_ids := [0; 0]]> (<[k_attention_mask := [1; 1]]> ∅)) in
  DatapipeForUnsupervisedSimCSE.decode (<["tokens"%string := [9; 9; 9]]> r) =
    DatapipeForUnsupervisedSimCSE.decode r /\
  DatapipeForUnsupervisedSimCSE.decode (delete "tokens"%string r) =
    DatapipeForUnsupervisedSimCSE.decode r.
Proof.
  apply (decode_reads_three_fields_only
           (<[k_input_ids := [5; 7]]>
              (<[k_segment_ids := [0; 0]]> (<[k_attention_mask := [1; 1]]> ∅)))
           "tokens" [9; 9; 9]); discriminate.
Defined.


(** The witness of X14: two examples and their two records. *)
Lemma record_path_builds_same_dataset_witness :
  let examples := [mkExample [5; 7] [0; 0] [1; 1]; mkExample [6] [0] [1]] in
  let records : list (gmap string (list Z)) :=
    [<[k_input_ids := [5; 7]]>
       (<[k_segment_ids := [0; 0]]> (<[k_attention_mask := [1; 1]]> ∅));
     <[k_input_ids := [6]]>
       (<[k_segment_ids := [0]]> (<[k_attention_mask := [1]]> ∅))] in
  DatapipeForUnsupervisedSimCSE.from_tfrecord_files (fun ds => ds) records =
    [([5; 7], [0; 0], [1; 1]); ([6], [0], [1])] /\
  (DatapipeForUnsupervisedSimCSE.from_examples (fun ds => ds) (Some examples) false).2 =
    Returns (Some (DatapipeForUnsupervisedSimCSE.from_tfrecord_files (fun ds => ds) records)).
Proof.
  apply (record_path_builds_same_dataset (fun ds => ds)
           [mkExample [5; 7] [0; 0] [1; 1]; mkExample [6] [0] [1]]
           [<[k_input_ids := [5; 7]]>
              (<[k_segment_ids := [0; 0]]> (<[k_attention_mask := [1; 1]]> ∅));
            <[k_input_ids := [6]]>
              (<[k_segment_ids := [0]]> (<[k_attention_mask := [1]]> ∅))] false).
  - discriminate.
  - repeat constructor.
  - reflexivity.
Defined.

(** The witness of X15: bound 3, batch size 2; the example of length 4 is
    filtered out and the two others are padded to 3. *)
Lemma filter_then_fixed_padding_only_pads_witness :
  let ds : list element :=
    [([5; 6], [0; 0], [1; 1]); ([1; 2; 3; 4], [0; 0; 0; 0], [1; 1; 1; 1]);
     ([7], [0], [1])] in
  let B : batch :=
    ([[5; 6; 9]; [7; 9; 9]], [[0; 0; 9]; [0; 9; 9]], [[1; 1; 9]; [1; 9; 9]]) in
  let g : list element := [([5; 6], [0; 0], [1; 1]); ([7], [0], [1])] in
  Forall2 (fun x row => only_padded 9 (x.1.1) row /\ size row = 3) g (B.1.1) /\
  Forall2 (fun x row => only_padded 9 (x.1.2) row /\ size row = 3) g (B.1.2) /\
  Forall2 (fun x row => only_padded 9 (x.2) row /\ size row = 3) g (B.2).
Proof.
  apply (filter_then_fixed_padding_only_pads
           [([5; 6], [0; 0], [1; 1]); ([1; 2; 3; 4], [0; 0; 0; 0], [1; 1; 1; 1]);
            ([7], [0], [1])] 9 3 2 0
           ([[5; 6; 9]; [7; 9; 9]], [[0; 0; 9]; [0; 9; 9]], [[1; 1; 9]; [1; 9; 9]])).
  - reflexivity.
  - reflexivity.
  - lia.
  - lia.
  - repeat constructor.
  - reflexivity.
Defined.

(** The witness of X16: the batch of two examples of lengths 3 and 1. *)
Lemma dynamic_padding_never_cuts_witness :
  let ds : list element := [([5; 6; 7], [0; 0; 0], [1; 1; 1]); ([5], [0], [1])] in
  let B : batch :=
    ([[5; 6; 7]; [5; 9; 9]], [[0; 0; 0]; [0; 9; 9]], [[1; 1; 1]; [1; 9; 9]]) in
  exists g, (forall x, In x g -> In x ds) /\
    Forall2 (fun x row => only_padded 9 (x.1.1) row) g (B.1.1) /\
    Forall2 (fun x row => only_padded 9 (x.1.2) row) g (B.1.2) /\
    Forall2 (fun x row => only_padded 9 (x.2) row) g (B.2).
Proof.
  apply (dynamic_padding_never_cuts
           [([5; 6; 7], [0; 0; 0], [1; 1; 1]); ([5], [0], [1])] 9 [] 2
           ([[5; 6; 7]; [5; 9; 9]], [[0; 0; 0]; [0; 9; 9]], [[1; 1; 1]; [1; 9; 9]])).
  - reflexivity.
  - left. simpl. left. reflexivity.
Defined.

(** ** Logging and batches *)

Section LoggingAndBatches.
Import DatapipeForUnsupervisedSimCSE.
Context {D : Type} (call : list element -> D).
Context (parse : instance -> option ExampleForUnsupervisedSimCSE).
Local Open Scope nat_scope.

(** X17.  In [from_examples], [verbose] changes the log only: the call
    returns the same value with and without it, and without it nothing is
    logged but the warning. *)
Theorem verbose_only_affects_logging
    (examples : option (list ExampleForUnsupervisedSimCSE)) :
  (from_examples call examples true).2 = (from_examples call examples false).2 /\
  (forall ev, In ev (from_examples call examples false).1 ->
              ev = LogWarning empty_warning).
Proof.
  split.
  - destruct examples as [[|e es]|]; [done| |done].
    by rewrite !from_examples_nonempty.
  - destruct examples as [[|e es]|].
    + intros ev [<-|[]]. reflexivity.
    + rewrite from_examples_nonempty. by intros ev [].
    + intros ev [<-|[]]. reflexivity.
Qed.

Lemma windows_from_nonempty {A} (n : nat) (cur l : list A) :
  Forall (fun g => g <> []) (utils.windows_from n cur l).
Proof.
  revert cur. induction l as [|x l IH]; intros cur; cbn [utils.windows_from].
  - destruct cur; repeat constructor. done.
  - destruct (n <=? length (cur ++ [x])); [|apply IH].
    constructor; [|apply IH]. by destruct cur.
Qed.

Lemma pad_group_rows (shapes : option Z * option Z * option Z) (values : Z * Z * Z)
    (reference g : list element) :
  let B := utils.pad_group shapes values reference g in
  length (B.1.1) = length g /\ length (B.1.2) = length g /\ length (B.2) = length g.
Proof.
  destruct shapes as [[sa sb] sc], values as [[va vb] vc]. cbv zeta.
  unfold utils.pad_group, utils.pad_field. cbn [fst snd].
  by rewrite !length_map.
Qed.

(** X18.  None of the three strategies yields an empty batch: the three
    fields of a batch have the same, positive number of rows; and for the
    empty dataset each strategy yields no batch at all. *)
Theorem padding_yields_no_empty_batch (ds : list element) (pad_id M : Z)
    (bounds : list Z) (n : nat) :
  (forall B, In B (_fixed_padding ds pad_id M n) \/ In B (_batch_padding ds pad_id n) \/
             In B (_bucket_padding ds pad_id bounds n) ->
     0 < length (B.1.1) /\ length (B.1.2) = length (B.1.1) /\
     length (B.2) = length (B.1.1)) /\
  (ds = [] -> _fixed_padding ds pad_id M n = [] /\ _batch_padding ds pad_id n = [] /\
              _bucket_padding ds pad_id bounds n = []).
Proof.
  assert (forall shapes values reference (g : list element),
            g <> [] ->
            let B := utils.pad_group shapes values reference g in
            0 < length (B.1.1) /\ length (B.1.2) = length (B.1.1) /\
            length (B.2) = length (B.1.1)) as Hrows.
  { intros shapes values reference g Hg. cbv zeta.
    destruct (pad_group_rows shapes values reference g) as (-> & -> & ->).
    split; [|done]. destruct g; [done|simpl; lia]. }
  assert (forall (l g : list element), In g (utils.windows n l) -> g <> []) as Hne.
  { intros l g Hg. pose proof (windows_from_nonempty n [] l) as Hall.
    rewrite List.Forall_forall in Hall. by apply Hall. }
  split.
  - intros B [HB|[HB|HB]].
    + unfold _fixed_padding, utils.batching_and_padding in HB.
      apply in_map_iff in HB as (g & <- & Hg). apply Hrows. by eapply Hne.
    + unfold _batch_padding, utils.batching_and_padding in HB.
      apply in_map_iff in HB as (g & <- & Hg). apply Hrows. by eapply Hne.
    + apply bucket_padding_In in HB as (k & g & _ & Hg & ->).
      apply Hrows. by eapply Hne.
  - intros ->. split; [done|]. split; [done|]. unfold _bucket_padding, utils.bucketing_and_padding, utils.bucket_batches.
    cbn [utils.bucket_members List.filter utils.windows utils.windows_from List.map].
    induction (seq 0 (S (length bounds))) as [|k ks IH]; [done|]. exact IH.
Qed.

End LoggingAndBatches.
